(** * funcX: the SDK client and the endpoint's message pump

  A shallow embedding of [funcx_sdk/funcx/sdk/client.py] (the class
  [FuncXClient]) together with models of the endpoint-side components
  that the repository's integration tests and example configurations
  exercise.

  Python objects are embedded as follows:
  - JSON-like data ([dict], [list], [str], [int], [bool], [None]) is the
    inductive type [Py.value]; a [dict] with string keys is a [gmap];
  - exceptions are the inductive type [Py.exn]; a computation that may
    raise and that mutates the client or talks to the web service lives in
    the state-and-exception monad [M]: the state reached when an exception
    is raised is kept, as in Python;
  - the web service is an oracle stored in the world: its answer to a
    request is a function of the requests that were made before. *)

From Stdlib Require Import ZArith NArith List String Ascii Lia Bool.
From stdpp Require Import base option gmap strings list.

#[local] Set Warnings "-register-all".
#[local] Open Scope string_scope.

(* ===================================================================== *)
(** * Python values, exceptions and the few builtins the client uses      *)
(* ===================================================================== *)

Module Py.

(** JSON-like Python data. Floats are left out: no value the client
    inspects is compared or computed as a float. *)
Inductive value : Type :=
| VNone
| VBool (b : bool)
| VInt (z : Z)
| VStr (s : string)
| VList (l : list value)
| VDict (d : gmap string value).

(** The exceptions that the embedded code raises or lets through. *)
Inductive exn : Type :=
| KeyError (key : string)
| TypeError (msg : string)
| AttributeError (msg : string)
| ValueError (msg : string)
| AssertionError (msg : string)
| NotImplementedError (msg : string)
| JSONDecodeError
| SerializationError (msg : string)
| FuncxTaskExecutionFailed (exc : value) (completion_t : value)
| TaskPending (reason : string)
| VersionMismatch (package_name current : string) (min_version : value)
| ServiceError (detail : value)
| LoginError
| RuntimeError (msg : string)
| DeprecationWarning (message : string).

(** The outcome of an expression: it raises or it yields a value. *)
Definition outcome (A : Type) : Type := exn + A.

(** [obj[key]] for a string key. *)
Definition getitem (obj : value) (key : string) : outcome value :=
  match obj with
  | VDict d =>
      match d !! key with
      | Some v => inr v
      | None => inl (KeyError key)
      end
  | _ => inl (TypeError "subscript")
  end.

(** [key in obj] for a string key and a dict. *)
Definition contains (obj : value) (key : string) : bool :=
  match obj with
  | VDict d => bool_decide (is_Some (d !! key))
  | _ => false
  end.

(** [obj.get(key, default)]: only dicts have the method. *)
Definition dict_get (obj : value) (key : string) (dflt : value)
  : outcome value :=
  match obj with
  | VDict d => inr (default dflt (d !! key))
  | _ => inl (AttributeError "get")
  end.

(** [v != 200]-style comparison against an integer literal. A bool
    compares as 0 or 1, every other non-integer is different. *)
Definition ne_int (v : value) (n : Z) : bool :=
  match v with
  | VInt z => negb (z =? n)%Z
  | VBool b => negb ((if b then 1 else 0) =? n)%Z
  | _ => true
  end.

(** [iter(obj)] as the list of the items a [for] loop visits. *)
Definition iterate (obj : value) : outcome (list value) :=
  match obj with
  | VList l => inr l
  | VDict d => inr (VStr <$> (map_to_list d).*1)
  | VStr s => inr ((fun c => VStr (String c EmptyString)) <$> list_ascii_of_string s)
  | _ => inl (TypeError "not iterable")
  end.

(** [str.lower()] on the ASCII range. *)
Definition lower_ascii (c : ascii) : ascii :=
  let n := nat_of_ascii c in
  if (65 <=? n)%nat && (n <=? 90)%nat then ascii_of_nat (n + 32) else c.

Fixpoint lower (s : string) : string :=
  match s with
  | EmptyString => EmptyString
  | String c s' => String (lower_ascii c) (lower s')
  end.

(** [obj.lower()]: only strings have the method. *)
Definition str_lower (obj : value) : outcome string :=
  match obj with
  | VStr s => inr (lower s)
  | _ => inl (AttributeError "lower")
  end.

(** Truth value of a string: empty is false. *)
Definition str_truthy (s : string) : bool :=
  match s with
  | EmptyString => false
  | String _ _ => true
  end.

End Py.

(* ===================================================================== *)
(** * UUIDs as Python's [uuid] module prints and draws them               *)
(* ===================================================================== *)

Module Uuid.

(** A UUID is its 128-bit integer ([UUID.int]). *)
Definition t : Type := N.

Definition hex_digit (d : N) : ascii :=
  if (d <? 10)%N then ascii_of_N (48 + d) else ascii_of_N (87 + d).

(** ['%0wx' % x] for [x] below [16^w]: [w] hexadecimal digits, most
    significant first. *)
Fixpoint hex_fixed (w : nat) (x : N) : string :=
  match w with
  | O => EmptyString
  | S w' => hex_fixed w' (x / 16)%N ++ String (hex_digit (x mod 16)%N) EmptyString
  end.

(** [UUID.__str__]: the 32 digits grouped 8-4-4-4-12. *)
Definition to_str (u : t) : string :=
  let hex := hex_fixed 32 u in
  substring 0 8 hex ++ "-" ++ substring 8 4 hex ++ "-" ++
  substring 12 4 hex ++ "-" ++ substring 16 4 hex ++ "-" ++
  substring 20 12 hex.

(** [UUID(bytes=os.urandom(16), version=4)]: the 16 random bytes read as
    a big-endian integer, with the RFC 4122 variant and the version
    number 4 written over them. *)
Definition of_random (r : N) : t :=
  let i := (r mod 2 ^ 128)%N in
  let i := N.ldiff i (N.shiftl 0xc000 48) in
  let i := N.lor i (N.shiftl 0x8000 48) in
  let i := N.ldiff i (N.shiftl 0xf000 64) in
  N.lor i (N.shiftl 4 76).

(** The version number, the variant bits and the size of a UUID. *)
Definition version (u : t) : N := N.land (N.shiftr u 76) 15.
Definition variant (u : t) : N := N.land (N.shiftr u 62) 3.
Definition in_range (u : t) : Prop := (u < 2 ^ 128)%N.

Section Bits.
#[local] Open Scope N_scope.

Lemma testbit_small (a n k : N) :
  (a < 2 ^ k) -> (k <= n) -> N.testbit a n = false.
Proof.
  intros Ha Hn. destruct (N.eq_dec a 0) as [->|Hne]; [apply N.bits_0|].
  apply N.bits_above_log2. apply N.log2_lt_pow2; [lia|].
  eapply N.lt_le_trans; [exact Ha|]. apply N.pow_le_mono_r; lia.
Qed.

(** A drawn UUID has version 4. *)
Lemma of_random_version r : version (of_random r) = 4.
Proof.
  apply N.bits_inj. intros n. unfold version, of_random. cbv zeta.
  rewrite N.land_spec, N.shiftr_spec', N.lor_spec, N.ldiff_spec, N.lor_spec,
          N.ldiff_spec.
  destruct (N.ltb_spec n 4) as [Hlt|Hge].
  - assert (n = 0 \/ n = 1 \/ n = 2 \/ n = 3) as Hn by lia.
    destruct Hn as [Hn|[Hn|[Hn|Hn]]]; subst n; vm_compute N.add;
      rewrite ?(N.shiftl_spec_high' 4 76), ?(N.shiftl_spec_high' 0xf000 64) by lia;
      vm_compute N.sub; cbn [N.testbit Pos.testbit Pos.pred_N];
      rewrite ?andb_false_r, ?andb_true_r, ?orb_false_r, ?orb_true_r;
      reflexivity.
  - rewrite (testbit_small 15 n 4) by (simpl; lia).
    rewrite (testbit_small 4 n 4) by (simpl; lia).
    apply andb_false_r.
Qed.

(** Its variant is the one of RFC 4122: the bits [10]. *)
Lemma of_random_variant r : variant (of_random r) = 2.
Proof.
  apply N.bits_inj. intros n. unfold variant, of_random. cbv zeta.
  rewrite N.land_spec, N.shiftr_spec', N.lor_spec, N.ldiff_spec, N.lor_spec,
          N.ldiff_spec.
  destruct (N.ltb_spec n 2) as [Hlt|Hge].
  - assert (n = 0 \/ n = 1) as Hn by lia.
    destruct Hn as [Hn|Hn]; subst n; vm_compute N.add;
      rewrite ?(N.shiftl_spec_high' 4 76), ?(N.shiftl_spec_high' 0xf000 64),
              ?(N.shiftl_spec_high' 0xc000 48), ?(N.shiftl_spec_high' 0x8000 48)
        by lia;
      rewrite ?(N.shiftl_spec_low 4 76) by lia;
      vm_compute N.sub; cbn [N.testbit Pos.testbit Pos.pred_N];
      rewrite ?andb_false_r, ?andb_true_r, ?orb_false_r, ?orb_true_r;
      reflexivity.
  - rewrite (testbit_small 3 n 2) by (simpl; lia).
    rewrite (testbit_small 2 n 2) by (simpl; lia).
    apply andb_false_r.
Qed.

Lemma of_random_in_range r : in_range (of_random r).
Proof.
  unfold in_range.
  assert (Hbits : forall n, (128 <= n) -> N.testbit (of_random r) n = false).
  { intros n Hn. unfold of_random. cbv zeta.
    rewrite N.lor_spec, N.ldiff_spec, N.lor_spec, N.ldiff_spec.
    rewrite (N.mod_pow2_bits_high r 128 n) by lia.
    rewrite (testbit_small (N.shiftl 0x8000 48) n 128) by (vm_compute; auto || lia).
    rewrite (testbit_small (N.shiftl 4 76) n 128) by (vm_compute; auto || lia).
    reflexivity. }
  destruct (N.eq_dec (of_random r) 0) as [->|Hne]; [reflexivity|].
  apply N.log2_lt_pow2; [lia|].
  destruct (N.lt_ge_cases (N.log2 (of_random r)) 128) as [Hlt|Hge]; [exact Hlt|].
  pose proof (N.bit_log2 (of_random r) Hne) as Htop.
  rewrite Hbits in Htop by exact Hge. discriminate.
Qed.

End Bits.

Lemma length_append (s1 s2 : string) :
  String.length (s1 ++ s2) = String.length s1 + String.length s2.
Proof. induction s1 as [|c s1 IH]; simpl; [reflexivity | now rewrite IH]. Qed.

Lemma length_substring (s : string) :
  forall n m, n + m <= String.length s -> String.length (substring n m s) = m.
Proof.
  induction s as [|c s IH]; intros n m Hle; simpl in *.
  - destruct n, m; simpl; lia.
  - destruct n as [|n].
    + destruct m as [|m]; simpl; [reflexivity|]. rewrite IH; lia.
    + apply IH. lia.
Qed.

Lemma length_hex_fixed w : forall x, String.length (hex_fixed w x) = w.
Proof.
  induction w as [|w IH]; intros x; simpl; [reflexivity|].
  rewrite length_append, IH. simpl. lia.
Qed.

(** A UUID prints as 36 characters. *)
Lemma length_to_str u : String.length (to_str u) = 36.
Proof.
  unfold to_str. cbv zeta.
  rewrite !length_append, !length_substring by (rewrite length_hex_fixed; lia).
  reflexivity.
Qed.

End Uuid.

(* ===================================================================== *)
(** * The state-and-exception monad                                       *)
(* ===================================================================== *)

Module Monad.
Import Py.

(** A computation over a state [S]: it ends by raising or by returning,
    and either way leaves a state behind. *)
Definition M (S A : Type) : Type := S -> outcome A * S.

Definition ret {S A} (a : A) : M S A := fun s => (inr a, s).

Definition raise {S A} (e : exn) : M S A := fun s => (inl e, s).

Definition bind {S A B} (c : M S A) (k : A -> M S B) : M S B :=
  fun s =>
    match c s with
    | (inr a, s') => k a s'
    | (inl e, s') => (inl e, s')
    end.

(** An expression without effects, which may still raise. *)
Definition lift {S A} (o : outcome A) : M S A := fun s => (o, s).

Definition gets {S A} (f : S -> A) : M S A := fun s => (inr (f s), s).

Definition modify {S} (f : S -> S) : M S unit := fun s => (inr tt, f s).

(** [try: c  except Exception: h]. *)
Definition try_except {S A} (c : M S A) (h : exn -> M S A) : M S A :=
  fun s =>
    match c s with
    | (inr a, s') => (inr a, s')
    | (inl e, s') => h e s'
    end.

(** [assert b, msg]. *)
Definition assert_ {S} (b : bool) (msg : string) : M S unit :=
  if b then ret tt else raise (AssertionError msg).

(** [for x in l: body x]. *)
Fixpoint for_each {S A} (l : list A) (body : A -> M S unit) : M S unit :=
  match l with
  | [] => ret tt
  | x :: l' => bind (body x) (fun _ => for_each l' body)
  end.

End Monad.

Notation "x <- c1 ;; c2" := (Monad.bind c1 (fun x => c2))
(at level 100, c1 at next level, right associativity).
Notation "c1 ;;; c2" := (Monad.bind c1 (fun _ => c2))
(at level 100, right associativity).

(* ===================================================================== *)
(** * [funcx.sdk.client]: the class [FuncXClient]                         *)
(* ===================================================================== *)

Module Client.
Import Py Monad.

(** ** The web service and the rest of the world *)

(** The requests [FuncxWebClient] sends for the methods embedded here. *)
Inductive request : Type :=
| GetVersion
| GetTask (task_id : string)
| GetBatchStatus (task_ids : list string)
| Submit (data : value)
| RegisterEndpoint (endpoint_name endpoint_id : string) (metadata : value)
    (endpoint_version : option string).

(** The service answers a request from the requests made so far; an
    answer is the response the web client hands back, or the error it
    raises. *)
Record service : Type := {
  on_get_version : list request -> outcome value;
  on_get_task : list request -> string -> outcome string;
  on_get_batch_status : list request -> list string -> outcome value;
  on_submit : list request -> value -> outcome value;
  on_register_endpoint :
    list request -> string -> string -> value -> option string -> outcome value;
}.

(** A record of [logger] or [warnings]: its level and its message. *)
Inductive log_record : Type := Log (level message : string).

Record world : Type := {
  svc : service;
  requests : list request;          (* oldest first *)
  urandom : nat -> N;               (* the k-th draw of 16 random bytes *)
  draws : nat;
  login_flow : outcome unit;        (* what an implicit login ends in *)
  emitted : list log_record;
  warning_filter : string -> bool;  (* the filter makes an error of this warning *)
  event_loop : outcome nat;         (* what [asyncio.get_event_loop()] gives *)
}.

Definition record_request (r : request) (w : world) : world :=
  {| svc := svc w; requests := requests w ++ [r]; urandom := urandom w;
     draws := draws w; login_flow := login_flow w; emitted := emitted w;
     warning_filter := warning_filter w; event_loop := event_loop w |}.

Definition record_log (l : log_record) (w : world) : world :=
  {| svc := svc w; requests := requests w; urandom := urandom w;
     draws := draws w; login_flow := login_flow w;
     emitted := emitted w ++ [l];
     warning_filter := warning_filter w; event_loop := event_loop w |}.

Definition next_draw (w : world) : world :=
  {| svc := svc w; requests := requests w; urandom := urandom w;
     draws := S (draws w); login_flow := login_flow w;
     emitted := emitted w;
     warning_filter := warning_filter w; event_loop := event_loop w |}.

(** One round trip: the request is logged, the service answers. *)
Definition call {A} (r : request)
    (answer : service -> list request -> outcome A) : M world A :=
  fun w => (answer (svc w) (requests w), record_request r w).

Definition emit (level message : string) : M world unit :=
  modify (record_log (Log level message)).

(** [uuid.uuid4()]. *)
Definition uuid4 : M world Uuid.t :=
  fun w => (inr (Uuid.of_random (urandom w (draws w))), next_draw w).

(** [warnings.warn(message, DeprecationWarning)]: the warning is raised
    as an exception when the warnings filter makes an error of it, and
    is put on record otherwise. *)
Definition warn (message : string) : M world unit :=
  fun w =>
    if warning_filter w message
    then (inl (DeprecationWarning message), w)
    else emit "DeprecationWarning" message w.

(** [asyncio.get_event_loop()]: the current event loop, or the
    [RuntimeError] of a thread that has none. *)
Definition get_event_loop : M world nat :=
  fun w => (event_loop w, w).

(** ** What the module imports from the rest of the package

    The functions below are defined in modules of the package that this
    development does not embed; the client is parametric in them. *)
Record Batch : Type := {
  tasks : list value;
  task_group_id : string;
}.

Class Collaborators : Type := {
  (** [json.loads] *)
  json_loads : string -> outcome value;
  (** [FuncXSerializer.deserialize] *)
  deserialize : value -> outcome value;
  (** [funcx.version.compare_versions (current, min_version, package_name)] *)
  compare_versions : string -> value -> string -> outcome unit;
  (** [funcx.errors.handle_response_errors] *)
  handle_response_errors : value -> outcome unit;
  (** [funcx.version.__version__] *)
  __version__ : string;
  (** [funcx.sdk._environments] *)
  get_web_service_url : option string -> string;
  get_web_socket_url : option string -> string;
  urls_might_mismatch : string -> string -> bool;
  (** [os.path.expanduser] *)
  expanduser : string -> string;
  (** [Batch.prepare] *)
  prepare : Batch -> value;
}.

(** ** The client object *)

(** An entry of [_task_status_table]: the dict
    [{"pending": .., "status": ..}], with the two keys ["result"] and
    ["completion_t"] added together when the task succeeded. *)
Record task_status : Type := {
  pending : bool;
  status : string;
  completed : option (value * value);   (* result, completion_t *)
}.

(** The background [WebSocketPollingTask] of an asynchronous client. *)
Record polling_task : Type := {
  added_tasks : list value;
  task_group_ids : list value;
}.

Record FuncXClient : Type := {
  _task_status_table : gmap string task_status;
  funcx_home : string;
  session_task_group_id : string;
  funcx_service_address : string;
  results_ws_uri : string;
  asynchronous : bool;
  loop : option nat;                (* the event loop, [None] when synchronous *)
  ws_polling_task : option polling_task;
}.

Record state : Type := { self : FuncXClient; env : world }.

Definition set_table (f : gmap string task_status -> gmap string task_status)
    (s : state) : state :=
  let c := self s in
  {| self := {| _task_status_table := f (_task_status_table c);
                funcx_home := funcx_home c;
                session_task_group_id := session_task_group_id c;
                funcx_service_address := funcx_service_address c;
                results_ws_uri := results_ws_uri c;
                asynchronous := asynchronous c;
                loop := loop c;
                ws_polling_task := ws_polling_task c |};
     env := env s |}.

Definition set_polling (f : polling_task -> polling_task) (s : state) : state :=
  let c := self s in
  {| self := {| _task_status_table := _task_status_table c;
                funcx_home := funcx_home c;
                session_task_group_id := session_task_group_id c;
                funcx_service_address := funcx_service_address c;
                results_ws_uri := results_ws_uri c;
                asynchronous := asynchronous c;
                loop := loop c;
                ws_polling_task := f <$> ws_polling_task c |};
     env := env s |}.

(** A computation of the web client or of a library, run from a method. *)
Definition on_world {A} (c : M world A) : M state A :=
  fun s =>
    let (o, w) := c (env s) in (o, {| self := self s; env := w |}).

(** A method run on a given object. *)
Definition on_object {A} (c : FuncXClient) (m : M state A)
  : M world (A * FuncXClient) :=
  fun w =>
    match m {| self := c; env := w |} with
    | (inr a, s) => (inr (a, self s), env s)
    | (inl e, s) => (inl e, env s)
    end.

(** The number of [GET /version] requests in a log. *)
Definition is_get_version (r : request) : bool :=
  match r with GetVersion => true | _ => false end.

Definition version_calls (l : list request) : nat :=
  length (filter (fun r => is_get_version r = true) l).

Section Methods.
Context `{Collaborators}.

(** ** [__init__] *)

(** The [task_group_id] argument: [None], a [uuid.UUID] or a [str]. *)
Inductive task_group_arg : Type :=
| TG_None
| TG_UUID (u : Uuid.t)
| TG_Str (s : string).

(** [bool(task_group_id)]: [None] and the empty string are false; a
    [UUID] defines neither [__bool__] nor [__len__] and is true. *)
Definition truthy (a : task_group_arg) : bool :=
  match a with
  | TG_None => false
  | TG_UUID _ => true
  | TG_Str s => str_truthy s
  end.

(** [str(task_group_id)]. *)
Definition str (a : task_group_arg) : string :=
  match a with
  | TG_None => "None"
  | TG_UUID u => Uuid.to_str u
  | TG_Str s => s
  end.

(** [task_group_id and str(task_group_id) or str(uuid.uuid4())]:
    [x and y] is [y] when [x] is true and [x] otherwise; [z or w]
    evaluates [w] only when [z] is false. *)
Definition session_task_group_id_of (a : task_group_arg) : M world string :=
  let conj : task_group_arg + string :=
    if truthy a then inr (str a) else inl a in
  let conj_truthy :=
    match conj with inl x => truthy x | inr y => str_truthy y end in
  if conj_truthy
  then ret (match conj with inl x => str x | inr y => y end)
  else u <- uuid4 ;; ret (Uuid.to_str u).

Record init_args : Type := {
  arg_funcx_home : string;
  arg_asynchronous : bool;
  arg_loop : option nat;              (* an event loop, or [None] *)
  arg_environment : option string;
  arg_funcx_service_address : option string;
  arg_results_ws_uri : option string;
  arg_warn_about_url_mismatch : bool;
  arg_task_group_id : task_group_arg;
  arg_do_version_check : bool;
  arg_openid_authorizer : bool;       (* [is not None] *)
  arg_search_authorizer : bool;
  arg_fx_authorizer : bool;
  arg_login_manager : bool;           (* a login manager was passed *)
}.

(** ** [version_check] *)
Definition version_check (endpoint_version : option string) : M state unit :=
  data <- on_world (call GetVersion on_get_version) ;;
  min_ep_version <- lift (getitem data "min_ep_version") ;;
  min_sdk_version <- lift (getitem data "min_sdk_version") ;;
  lift (compare_versions __version__ min_sdk_version "funcx") ;;;
  match endpoint_version with
  | Some v => lift (compare_versions v min_ep_version "funcx-endpoint")
  | None => ret tt
  end.

Definition deprecation_message (name : string) : string :=
  "The '" ++ name ++ "' argument is deprecated. " ++
  "It will be removed in a future release.".

Definition deprecation (given : bool) (name : string) : M world unit :=
  if given then warn (deprecation_message name) else ret tt.

Definition __init__ (a : init_args) : M world FuncXClient :=
  let service_address :=
    default (get_web_service_url (arg_environment a))
            (arg_funcx_service_address a) in
  let ws_uri :=
    default (get_web_socket_url (arg_environment a))
            (arg_results_ws_uri a) in
  (if arg_warn_about_url_mismatch a && urls_might_mismatch service_address ws_uri
   then emit "WARNING"
          ("funcx_service_address=" ++ service_address ++ " and " ++
           "results_ws_uri=" ++ ws_uri ++ " " ++
           "look like they might point to different environments. double check " ++
           "that they are the correct URLs.")
   else ret tt) ;;;
  group_id <- session_task_group_id_of (arg_task_group_id a) ;;
  deprecation (arg_openid_authorizer a) "openid_authorizer" ;;;
  deprecation (arg_fx_authorizer a) "fx_authorizer" ;;;
  deprecation (arg_search_authorizer a) "search_authorizer" ;;;
  (if arg_login_manager a then ret tt
   else fun w => (login_flow w, w)) ;;;
  (* the version check runs on the object under construction and reads
     none of its attributes; the loop and the polling task come after *)
  let obj := fun (the_loop : option nat) (polling : option polling_task) =>
             {| _task_status_table := ∅;
                funcx_home := expanduser (arg_funcx_home a);
                session_task_group_id := group_id;
                funcx_service_address := service_address;
                results_ws_uri := ws_uri;
                asynchronous := arg_asynchronous a;
                loop := the_loop;
                ws_polling_task := polling |} in
  (if arg_do_version_check a
   then on_object (obj None None) (version_check None)
   else ret (tt, obj None None)) ;;;
  if arg_asynchronous a then
    the_loop <- (match arg_loop a with
                 | Some given => ret given
                 | None => get_event_loop
                 end) ;;
    ret (obj (Some the_loop)
             (Some {| added_tasks := []; task_group_ids := [VStr group_id] |}))
  else ret (obj None None).

(** ** [_update_task_table] *)
Definition _update_task_table (return_msg : value) (task_id : string)
  : M state task_status :=
  r_dict <- lift (match return_msg with
                  | VStr s => json_loads s
                  | _ => inr return_msg
                  end) ;;
  st <- lift (dict_get r_dict "status" (VStr "unknown")) ;;
  r_status <- lift (str_lower st) ;;
  let is_pending :=
    negb (String.eqb r_status "success" || String.eqb r_status "failed") in
  new_status <-
    (if is_pending
     then ret {| pending := true; status := r_status; completed := None |}
     else
       (if negb (contains r_dict "result") && negb (contains r_dict "exception")
        then raise (ValueError "non-pending result is missing result data")
        else ret tt) ;;;
       completion_t <- lift (getitem r_dict "completion_t") ;;
       if contains r_dict "result" then
         payload <- lift (getitem r_dict "result") ;;
         match deserialize payload with
         | inl _ => raise (SerializationError "Result Object Deserialization")
         | inr r_obj =>
             ret {| pending := false; status := r_status;
                    completed := Some (r_obj, completion_t) |}
         end
       else if contains r_dict "exception" then
         exc <- lift (getitem r_dict "exception") ;;
         raise (FuncxTaskExecutionFailed exc completion_t)
       else raise (NotImplementedError "unreachable")) ;;
  modify (set_table (insert task_id new_status)) ;;;
  ret new_status.

(** ** [get_task] and [get_result] *)

(** [d.get("pending", True)] for the table's entry [d], or for [{}]. *)
Definition entry_pending (entry : option task_status) : bool :=
  match entry with
  | Some t => pending t
  | None => true
  end.

(** The tail of [get_task]: ask the service, then update the table
    from the text of the response. *)
Definition refresh_task (task_id : string) : M state task_status :=
  r <- on_world (call (GetTask task_id) (fun s h => on_get_task s h task_id)) ;;
  on_world (emit "DEBUG" "Response string : {r}") ;;;
  _update_task_table (VStr r) task_id.

Definition get_task (task_id : string) : M state task_status :=
  table <- gets (fun s => _task_status_table (self s)) ;;
  match table !! task_id with
  | Some task =>
      if negb (pending task) then ret task else refresh_task task_id
  | None => refresh_task task_id
  end.

Definition get_result (task_id : string) : M state value :=
  task <- get_task task_id ;;
  if pending task then raise (TaskPending (status task))
  else
    match completed task with
    | Some (r, _) => ret r
    | None => raise (KeyError "exception")
    end.

(** ** [get_batch_result] *)

(** The body of the loop over [task_id_list]; [r] is the response of
    the batch-status request and [results] the dict being built. *)
Definition batch_result_step (pending_task_ids : list string) (r : value)
    (task_id : string) (results : gmap string task_status)
  : M state (gmap string task_status) :=
  if bool_decide (task_id ∈ pending_task_ids) then
    try_except
      (all <- lift (getitem r "results") ;;
       data <- lift (getitem all task_id) ;;
       rets <- _update_task_table data task_id ;;
       ret (<[task_id := rets]> results))
      (fun e =>
         match e with
         | KeyError _ =>
             on_world (emit "DEBUG"
               "Task {} info was not available in the batch status") ;;;
             ret results
         | _ =>
             on_world (emit "ERROR"
               "Failure while unpacking results fom get_batch_result") ;;;
             ret results
         end)
  else
    table <- gets (fun s => _task_status_table (self s)) ;;
    match table !! task_id with
    | Some entry => ret (<[task_id := entry]> results)
    | None => raise (KeyError task_id)
    end.

Fixpoint batch_result_loop (pending_task_ids : list string) (r : value)
    (task_id_list : list string) (results : gmap string task_status)
  : M state (gmap string task_status) :=
  match task_id_list with
  | [] => ret results
  | task_id :: rest =>
      results' <- batch_result_step pending_task_ids r task_id results ;;
      batch_result_loop pending_task_ids r rest results'
  end.

Definition get_batch_result (task_id_list : list string)
  : M state (gmap string task_status) :=
  table <- gets (fun s => _task_status_table (self s)) ;;
  let pending_task_ids :=
    filter (fun task_id => entry_pending (table !! task_id) = true)
           task_id_list in
  r <- (match pending_task_ids with
        | [] => ret VNone
        | _ :: _ =>
            r <- on_world (call (GetBatchStatus pending_task_ids)
                             (fun s h => on_get_batch_status s h pending_task_ids)) ;;
            on_world (emit "DEBUG" "Response string : {r}") ;;;
            ret r
        end) ;;
  batch_result_loop pending_task_ids r task_id_list ∅.

(** ** [create_batch] and [batch_run] *)
Definition create_batch (group : option string) : M state Batch :=
  session <- gets (fun s => session_task_group_id (self s)) ;;
  let group_id :=
    match group with
    | Some g => if str_truthy g then g else session
    | None => session
    end in
  ret {| tasks := []; task_group_id := group_id |}.

(** What [batch_run] returns: the task ids, or the [asyncio] tasks
    created for them when the client is asynchronous. *)
Inductive submitted : Type :=
| TaskIds (task_uuids : list value)
| AsyncTasks (asyncio_tasks : list value).

(** The loop over [r["results"]]; [task_uuids] accumulates the ids. *)
Fixpoint collect_task_uuids (results : list value) (task_uuids : list value)
  : M state (list value) :=
  match results with
  | [] => ret task_uuids
  | result :: rest =>
      task_id <- lift (getitem result "task_uuid") ;;
      let task_uuids := (task_uuids ++ [task_id])%list in
      code <- lift (getitem result "http_status_code") ;;
      (if ne_int code 200
       then lift (handle_response_errors result)
       else ret tt) ;;;
      collect_task_uuids rest task_uuids
  end.

Definition add_task (task_id : value) (p : polling_task) : polling_task :=
  {| added_tasks := added_tasks p ++ [task_id];
     task_group_ids := task_group_ids p |}.

Definition put_task_group_id (g : value) (p : polling_task) : polling_task :=
  {| added_tasks := added_tasks p;
     task_group_ids := task_group_ids p ++ [g] |}.

Definition batch_run (batch : Batch) : M state submitted :=
  assert_ (negb (Nat.eqb (length (tasks batch)) 0)) "Requires a non-empty batch" ;;;
  let data := prepare batch in
  r <- on_world (call (Submit data) (fun s h => on_submit s h data)) ;;
  results <- lift (getitem r "results") ;;
  items <- lift (iterate results) ;;
  task_uuids <- collect_task_uuids items [] ;;
  is_async <- gets (fun s => asynchronous (self s)) ;;
  if is_async then
    group_id <- lift (getitem r "task_group_id") ;;
    for_each task_uuids (fun task_id => modify (set_polling (add_task task_id))) ;;;
    modify (set_polling (put_task_group_id group_id)) ;;;
    ret (AsyncTasks task_uuids)
  else ret (TaskIds task_uuids).

(** ** [register_endpoint] *)
Definition register_endpoint (name endpoint_id : string) (metadata : value)
    (endpoint_version : option string) : M state value :=
  version_check None ;;;
  on_world (call (RegisterEndpoint name endpoint_id metadata endpoint_version)
                 (fun s h => on_register_endpoint s h name endpoint_id
                               metadata endpoint_version)).

End Methods.

End Client.

(* ===================================================================== *)
(** * Reasoning about monadic code                                        *)
(* ===================================================================== *)

Module MonadFacts.
Import Py Monad.

Lemma bind_returns {S A B} (c : M S A) (k : A -> M S B) s b s' :
  bind c k s = (inr b, s') ->
  exists a s1, c s = (inr a, s1) /\ k a s1 = (inr b, s').
Proof.
  unfold bind. destruct (c s) as [[e|a] s1]; intros Hk.
  - discriminate.
  - now exists a, s1.
Qed.

Lemma bind_raises {S A B} (c : M S A) (k : A -> M S B) s e s' :
  bind c k s = (inl e, s') ->
  c s = (inl e, s') \/
  exists a s1, c s = (inr a, s1) /\ k a s1 = (inl e, s').
Proof.
  unfold bind. destruct (c s) as [[e0|a] s1]; intros Hk.
  - left. now injection Hk as -> ->.
  - right. now exists a, s1.
Qed.

End MonadFacts.

(* ===================================================================== *)
(** * Properties of the client                                            *)
(* ===================================================================== *)

Module ClientSpec.
Import Py Monad MonadFacts Client.

Ltac case_scrutinee :=
  match goal with
  | |- context [match ?x with _ => _ end] => destruct x eqn:?
  end.

Section Properties.
Context `{Collaborators}.

(** [_update_task_table] is a parse followed by one write: whether it
    raises, and what it returns, depends on the message alone; when it
    returns, the only change is the entry of [task_id]. *)
Lemma update_task_table_parse_then_write (return_msg : value) (task_id : string) :
  exists o : outcome task_status,
    forall s,
      _update_task_table return_msg task_id s =
      match o with
      | inl e => (inl e, s)
      | inr st => (inr st, set_table (insert task_id st) s)
      end.
Proof.
  unfold _update_task_table, bind, lift, raise, ret, modify.
  repeat case_scrutinee;
    match goal with
    | |- exists o, forall s, (?r, _) = _ => exists r; intros ?; reflexivity
    end.
Qed.

Lemma update_task_table_env return_msg task_id s :
  env (_update_task_table return_msg task_id s).2 = env s.
Proof.
  destruct (update_task_table_parse_then_write return_msg task_id) as [[e|st] Ho];
    rewrite Ho; reflexivity.
Qed.

Lemma update_task_table_other return_msg task_id s other :
  other <> task_id ->
  _task_status_table (self (_update_task_table return_msg task_id s).2) !! other =
  _task_status_table (self s) !! other.
Proof.
  intros Hne.
  destruct (update_task_table_parse_then_write return_msg task_id) as [[e|st] Ho];
    rewrite Ho; simpl; [reflexivity|].
  now apply lookup_insert_ne.
Qed.

(** The message as [_update_task_table] reads it: the parsed JSON text
    when it is a [str], the object itself otherwise. *)
Definition parsed (return_msg : value) : outcome value :=
  match return_msg with
  | VStr s => json_loads s
  | _ => inr return_msg
  end.

Definition finished (r_status : string) : bool :=
  String.eqb r_status "success" || String.eqb r_status "failed".

(** A finished task whose message has neither ["result"] nor
    ["exception"] is refused with [ValueError]. *)
Lemma update_task_table_missing_data return_msg task_id s d st :
  parsed return_msg = inr (VDict d) ->
  d !! "status" = Some (VStr st) ->
  finished (lower st) = true ->
  d !! "result" = None ->
  d !! "exception" = None ->
  _update_task_table return_msg task_id s =
  (inl (ValueError "non-pending result is missing result data"), s).
Proof.
  unfold parsed, finished. intros Hp Hst Hfin Hr He.
  unfold _update_task_table, bind, lift, raise, ret, modify.
  rewrite Hp. simpl. rewrite Hst. simpl. rewrite Hfin. simpl.
  rewrite Hr, He. reflexivity.
Qed.

(** A result that does not deserialize ends in [SerializationError],
    whatever the serializer raised. *)
Lemma update_task_table_bad_result return_msg task_id s d st payload t e :
  parsed return_msg = inr (VDict d) ->
  d !! "status" = Some (VStr st) ->
  finished (lower st) = true ->
  d !! "result" = Some payload ->
  d !! "completion_t" = Some t ->
  deserialize payload = inl e ->
  _update_task_table return_msg task_id s =
  (inl (SerializationError "Result Object Deserialization"), s).
Proof.
  unfold parsed, finished. intros Hp Hst Hfin Hr Ht Hd.
  unfold _update_task_table, bind, lift, raise, ret, modify.
  rewrite Hp. simpl. rewrite Hst. simpl. rewrite Hfin. simpl.
  rewrite Hr, Ht. simpl. rewrite Hd. reflexivity.
Qed.

(** A message with an ["exception"] and no ["result"] ends in
    [FuncxTaskExecutionFailed]. *)
Lemma update_task_table_exception return_msg task_id s d st exc t :
  parsed return_msg = inr (VDict d) ->
  d !! "status" = Some (VStr st) ->
  finished (lower st) = true ->
  d !! "result" = None ->
  d !! "exception" = Some exc ->
  d !! "completion_t" = Some t ->
  _update_task_table return_msg task_id s =
  (inl (FuncxTaskExecutionFailed exc t), s).
Proof.
  unfold parsed, finished. intros Hp Hst Hfin Hr He Ht.
  unfold _update_task_table, bind, lift, raise, ret, modify.
  rewrite Hp. simpl. rewrite Hst. simpl. rewrite Hfin. simpl.
  rewrite Hr, He, Ht. reflexivity.
Qed.

(** C8. Whenever [_update_task_table] raises (among others: the
    [ValueError] for a finished task without data, the
    [SerializationError] for a result that does not deserialize, the
    [FuncxTaskExecutionFailed] for an exception field), the client is
    left as it was, so [_task_status_table] holds for [task_id] what it
    held before the call. The entry is written only once the message is
    parsed and its result deserialized. *)
Theorem update_task_table_raise_keeps_table return_msg task_id s e s' :
  _update_task_table return_msg task_id s = (inl e, s') ->
  s' = s /\
  _task_status_table (self s') !! task_id =
  _task_status_table (self s) !! task_id.
Proof.
  intros Hraise.
  destruct (update_task_table_parse_then_write return_msg task_id) as [[e0|st] Ho];
    rewrite Ho in Hraise.
  - injection Hraise as _ <-. split; reflexivity.
  - discriminate.
Qed.

(** When it returns, the entry of [task_id] is the status returned. *)
Lemma update_task_table_return_writes return_msg task_id s st s' :
  _update_task_table return_msg task_id s = (inr st, s') ->
  s' = set_table (insert task_id st) s.
Proof.
  intros Hret.
  destruct (update_task_table_parse_then_write return_msg task_id) as [[e0|st0] Ho];
    rewrite Ho in Hret.
  - discriminate.
  - now injection Hret as <- <-.
Qed.

(** ** The cache of finished tasks *)

Abbreviation table_of s := (_task_status_table (self s)).

Lemma get_task_cached task_id s entry :
  table_of s !! task_id = Some entry ->
  pending entry = false ->
  get_task task_id s = (inr entry, s).
Proof.
  intros Hentry Hdone. unfold get_task, bind, gets.
  rewrite Hentry, Hdone. reflexivity.
Qed.

(** One turn of the loop of [get_batch_result] on an id that was sent
    to the service: it never raises, sends nothing, and touches the
    table and the results at that id only. *)
Lemma batch_result_step_pending pend r task_id results s :
  task_id ∈ pend ->
  exists results' s',
    batch_result_step pend r task_id results s = (inr results', s') /\
    requests (env s') = requests (env s) /\
    (forall t, t <> task_id -> table_of s' !! t = table_of s !! t) /\
    (forall t, t <> task_id -> results' !! t = results !! t).
Proof.
  intros Hin. unfold batch_result_step.
  rewrite (bool_decide_eq_true_2 _ Hin).
  unfold try_except, bind, lift.
  destruct (getitem r "results") as [e|all].
  { destruct e; simpl; eauto 10. }
  destruct (getitem all task_id) as [e|data].
  { destruct e; simpl; eauto 10. }
  destruct (update_task_table_parse_then_write data task_id) as [[e|st] Ho];
    rewrite Ho.
  - destruct e; simpl; eauto 10.
  - simpl. eexists _, _. split; [reflexivity|]. split; [reflexivity|].
    split; intros t Hne; simpl; now rewrite lookup_insert_ne by congruence.
Qed.

(** One turn on an id answered from the table. *)
Lemma batch_result_step_cached pend r task_id results s entry :
  task_id ∉ pend ->
  table_of s !! task_id = Some entry ->
  batch_result_step pend r task_id results s =
  (inr (<[task_id := entry]> results), s).
Proof.
  intros Hnot Hentry. unfold batch_result_step.
  rewrite (bool_decide_eq_false_2 _ Hnot).
  unfold bind, gets. rewrite Hentry. reflexivity.
Qed.

(** The loop: the ids outside [pend] are answered from the table as it
    was when the loop started, and nothing is sent. *)
Lemma batch_result_loop_cached pend r task_id_list :
  forall results s,
    (forall t, t ∈ task_id_list -> t ∉ pend -> is_Some (table_of s !! t)) ->
    exists results' s',
      batch_result_loop pend r task_id_list results s = (inr results', s') /\
      requests (env s') = requests (env s) /\
      (forall t, t ∉ pend -> table_of s' !! t = table_of s !! t) /\
      (forall t, t ∉ pend ->
         (t ∈ task_id_list -> results' !! t = table_of s !! t) /\
         (t ∉ task_id_list -> results' !! t = results !! t)).
Proof.
  induction task_id_list as [|task_id rest IH]; intros results s Hknown.
  - exists results, s. simpl. unfold ret.
    repeat split; try reflexivity. intros Hin. inversion Hin.
  - simpl. unfold bind.
    destruct (decide (task_id ∈ pend)) as [Hin|Hnot].
    + destruct (batch_result_step_pending pend r task_id results s Hin)
        as (results1 & s1 & Hstep & Hreq & Htab & Hres).
      rewrite Hstep.
      destruct (IH results1 s1) as (results' & s' & Hloop & Hreq' & Htab' & Hres').
      { intros t Ht Hnp. rewrite Htab by (intros ->; contradiction).
        apply Hknown; [now apply list_elem_of_further | assumption]. }
      exists results', s'. split; [exact Hloop|].
      split; [congruence|].
      assert (Hfresh : forall t, t ∉ pend -> t <> task_id)
        by (intros t Hnp ->; contradiction).
      split.
      * intros t Hnp. rewrite Htab' by assumption. apply Htab; auto.
      * intros t Hnp. destruct (Hres' t Hnp) as [Hyes Hno]. split.
        -- intros Ht. apply elem_of_cons in Ht as [->|Ht]; [contradiction|].
           rewrite Hyes by assumption. apply Htab; auto.
        -- intros Ht. apply not_elem_of_cons in Ht as [Hne Ht].
           rewrite Hno by assumption. apply Hres; auto.
    + destruct (Hknown task_id (list_elem_of_here _ _) Hnot) as [entry Hentry].
      rewrite (batch_result_step_cached pend r task_id results s entry Hnot Hentry).
      destruct (IH (<[task_id := entry]> results) s)
        as (results' & s' & Hloop & Hreq' & Htab' & Hres').
      { intros t Ht Hnp. apply Hknown; [now apply list_elem_of_further | assumption]. }
      exists results', s'. split; [exact Hloop|].
      split; [exact Hreq'|]. split; [exact Htab'|].
      intros t Hnp. destruct (Hres' t Hnp) as [Hyes Hno]. split.
      * intros Ht. destruct (decide (t ∈ rest)) as [Hr|Hr]; [now apply Hyes|].
        apply elem_of_cons in Ht as [->|Ht]; [|contradiction].
        rewrite Hno by assumption. rewrite lookup_insert_eq. now rewrite Hentry.
      * intros Ht. apply not_elem_of_cons in Ht as [Hne Ht].
        rewrite Hno by assumption. now rewrite lookup_insert_ne.
Qed.

(** The ids [get_batch_result] sends to the service: those without an
    entry, or whose entry is still pending. *)
Definition still_pending (s : state) (task_id_list : list string) : list string :=
  filter (fun t => entry_pending (table_of s !! t) = true) task_id_list.

Lemma cached_not_still_pending s task_id_list task_id entry :
  table_of s !! task_id = Some entry ->
  pending entry = false ->
  task_id ∉ still_pending s task_id_list.
Proof.
  intros Hentry Hdone Hin. apply list_elem_of_filter in Hin as [Hp _].
  rewrite Hentry in Hp. simpl in Hp. congruence.
Qed.

Lemma not_still_pending_known s task_id_list t :
  t ∈ task_id_list -> t ∉ still_pending s task_id_list ->
  is_Some (table_of s !! t).
Proof.
  intros Hin Hnot. destruct (table_of s !! t) as [entry|] eqn:Hentry; [eauto|].
  exfalso. apply Hnot. apply list_elem_of_filter. split; [|assumption].
  now rewrite Hentry.
Qed.

(** What [get_batch_result] sends: nothing when no id is still
    pending, one batch-status request for exactly those ids otherwise. *)
Definition batch_status_requests (sent : list string) : list request :=
  match sent with
  | [] => []
  | _ :: _ => [GetBatchStatus sent]
  end.

Lemma get_batch_result_cached s task_id_list :
  let sent := still_pending s task_id_list in
  match get_batch_result task_id_list s with
  | (inr results, s') =>
      requests (env s') = (requests (env s) ++ batch_status_requests sent)%list /\
      forall t, t ∈ task_id_list -> t ∉ sent ->
        results !! t = table_of s !! t /\ table_of s' !! t = table_of s !! t
  | (inl e, s') =>
      sent <> [] /\
      on_get_batch_status (svc (env s)) (requests (env s)) sent = inl e /\
      table_of s' = table_of s /\
      requests (env s') = (requests (env s) ++ [GetBatchStatus sent])%list
  end.
Proof.
  cbv zeta. unfold get_batch_result, bind, gets.
  change (filter _ task_id_list) with (still_pending s task_id_list).
  pose proof (not_still_pending_known s task_id_list) as Hknown.
  destruct (still_pending s task_id_list) as [|t0 sent'].
  - unfold ret.
    destruct (batch_result_loop_cached [] VNone task_id_list ∅ s Hknown)
      as (results' & s' & Hloop & Hreq & Htab & Hres).
    rewrite Hloop. simpl. split.
    + rewrite Hreq. now rewrite app_nil_r.
    + intros t Ht Hnp. destruct (Hres t Hnp) as [Hyes _]. split; auto.
  - unfold on_world, call. simpl.
    destruct (on_get_batch_status (svc (env s)) (requests (env s)) (t0 :: sent'))
      as [e|r] eqn:Hanswer.
    + simpl. repeat split; congruence.
    + unfold emit, modify, ret. simpl.
      match goal with
      | |- context [batch_result_loop _ _ _ _ ?s1] =>
          destruct (batch_result_loop_cached (t0 :: sent') r task_id_list ∅ s1 Hknown)
            as (results' & s' & Hloop & Hreq & Htab & Hres)
      end.
      rewrite Hloop. simpl. split.
      * rewrite Hreq. reflexivity.
      * intros t Ht Hnp. destruct (Hres t Hnp) as [Hyes _]. split.
        -- now apply Hyes.
        -- now apply Htab.
Qed.

(** C9. A task whose cached entry has [pending] equal to [False] is
    answered from [_task_status_table]: [get_task] returns the entry,
    sends no request and changes nothing, so calling it again and again
    gives the same answer; [get_batch_result] puts the cached entry in
    its result, keeps the table's entry, and its only request, if any,
    is a batch-status request for the ids that are still pending, of
    which the task is none. *)
Theorem finished_task_answered_from_cache s task_id entry :
  table_of s !! task_id = Some entry ->
  pending entry = false ->
  get_task task_id s = (inr entry, s) /\
  (forall n, Nat.iter n (fun st => (get_task task_id st).2) s = s) /\
  (forall n, (get_task task_id (Nat.iter n (fun st => (get_task task_id st).2) s)).1
             = inr entry) /\
  forall task_id_list, task_id ∈ task_id_list ->
    let sent := still_pending s task_id_list in
    (task_id ∉ sent) /\
    (forall t, t ∈ sent -> entry_pending (table_of s !! t) = true) /\
    match get_batch_result task_id_list s with
    | (inr results, s') =>
        results !! task_id = Some entry /\
        table_of s' !! task_id = Some entry /\
        requests (env s') = (requests (env s) ++ batch_status_requests sent)%list
    | (inl e, s') =>
        on_get_batch_status (svc (env s)) (requests (env s)) sent = inl e /\
        table_of s' = table_of s /\
        requests (env s') = (requests (env s) ++ [GetBatchStatus sent])%list
    end.
Proof.
  intros Hentry Hdone.
  pose proof (get_task_cached task_id s entry Hentry Hdone) as Hget.
  assert (Hiter : forall n, Nat.iter n (fun st => (get_task task_id st).2) s = s).
  { induction n as [|n IH]; simpl; [reflexivity|]. rewrite IH, Hget. reflexivity. }
  split; [exact Hget|]. split; [exact Hiter|]. split.
  { intros n. rewrite Hiter, Hget. reflexivity. }
  intros task_id_list Hin sent.
  pose proof (cached_not_still_pending s task_id_list task_id entry Hentry Hdone)
    as Hnot.
  split; [exact Hnot|]. split.
  { intros t Ht. now apply list_elem_of_filter in Ht as [Hp _]. }
  pose proof (get_batch_result_cached s task_id_list) as Hbatch.
  simpl in Hbatch. fold sent in Hbatch.
  destruct (get_batch_result task_id_list s) as [[e|results] s'].
  - destruct Hbatch as (_ & Hanswer & Htab & Hreq). auto.
  - destruct Hbatch as (Hreq & Hres).
    destruct (Hres task_id Hin Hnot) as [Hr Ht].
    rewrite Hr, Ht, Hentry. auto.
Qed.

(** ** Construction *)

(** Two worlds that differ in what was logged or warned at most. *)
Definition same_but_log (w w1 : world) : Prop :=
  svc w1 = svc w /\ requests w1 = requests w /\ urandom w1 = urandom w /\
  draws w1 = draws w /\ login_flow w1 = login_flow w /\
  warning_filter w1 = warning_filter w /\ event_loop w1 = event_loop w.

Lemma same_but_log_refl w : same_but_log w w.
Proof. repeat split. Qed.

Lemma same_but_log_trans w w1 w2 :
  same_but_log w w1 -> same_but_log w1 w2 -> same_but_log w w2.
Proof. unfold same_but_log. intuition congruence. Qed.

Lemma emit_quiet level message w :
  exists w1, emit level message w = (inr tt, w1) /\ same_but_log w w1.
Proof. eexists. split; [reflexivity|]. repeat split. Qed.

Lemma deprecation_quiet given name w u w1 :
  deprecation given name w = (inr u, w1) -> same_but_log w w1.
Proof.
  unfold deprecation, warn. destruct given.
  - destruct (warning_filter w _); [discriminate|].
    intros [= _ <-]. repeat split.
  - intros [= _ <-]. apply same_but_log_refl.
Qed.

Lemma uuid_to_str_nonempty u : str_truthy (Uuid.to_str u) = true.
Proof.
  unfold Uuid.to_str. destruct (substring 0 8 (Uuid.hex_fixed 32 u)); reflexivity.
Qed.

(** The string of a true [task_group_id] is itself true, so the
    [and ... or ...] idiom never falls through to [uuid4] for it. *)
Lemma truthy_str a : truthy a = true -> str_truthy (str a) = true.
Proof.
  destruct a as [|u|s]; intros Ht.
  - discriminate.
  - apply uuid_to_str_nonempty.
  - exact Ht.
Qed.


(** The id drawn when none is given: [str(uuid.uuid4())] on the next
    16 random bytes of the world. *)
Definition fresh_group_id (w : world) : string :=
  Uuid.to_str (Uuid.of_random (urandom w (draws w))).

(** It is the 36-character string of a version-4 UUID. *)
Lemma fresh_group_id_is_uuid4 w :
  exists u,
    fresh_group_id w = Uuid.to_str u /\
    Uuid.version u = 4%N /\ Uuid.variant u = 2%N /\ Uuid.in_range u /\
    String.length (fresh_group_id w) = 36.
Proof.
  exists (Uuid.of_random (urandom w (draws w))).
  split; [reflexivity|].
  split; [apply Uuid.of_random_version|].
  split; [apply Uuid.of_random_variant|].
  split; [apply Uuid.of_random_in_range | apply Uuid.length_to_str].
Qed.

Lemma session_task_group_id_of_spec a w :
  session_task_group_id_of a w =
  if truthy a then (inr (str a), w) else (inr (fresh_group_id w), next_draw w).
Proof.
  unfold session_task_group_id_of.
  destruct (truthy a) eqn:Ht.
  - rewrite (truthy_str a Ht). reflexivity.
  - rewrite Ht. reflexivity.
Qed.

(** [version_check] sends one [GET /version], whatever comes of it, and
    leaves the client object alone. *)
Lemma version_check_one_request endpoint_version s :
  let r := version_check endpoint_version s in
  requests (env r.2) = (requests (env s) ++ [GetVersion])%list /\
  self r.2 = self s /\
  urandom (env r.2) = urandom (env s) /\ draws (env r.2) = draws (env s).
Proof.
  unfold version_check, bind, on_world, call, lift, ret. simpl.
  repeat case_scrutinee; simpl; auto.
Qed.

(** What a successful construction leaves behind. *)
Lemma init_returns a w c w' :
  __init__ a w = (inr c, w') ->
  session_task_group_id c =
    (if truthy (arg_task_group_id a) then str (arg_task_group_id a)
     else fresh_group_id w) /\
  _task_status_table c = ∅ /\
  asynchronous c = arg_asynchronous a /\
  requests w' =
    (requests w ++ if arg_do_version_check a then [GetVersion] else [])%list /\
  draws w' = (if truthy (arg_task_group_id a) then draws w else S (draws w)).
Proof.
  unfold __init__. intros Hinit.
  apply bind_returns in Hinit as ([] & w1 & Hwarn & Hinit).
  assert (Hq1 : same_but_log w w1).
  { destruct (_ && _) in Hwarn.
    - match type of Hwarn with
      | emit ?level ?message w = _ =>
          destruct (emit_quiet level message w) as (w0 & He & Hq)
      end.
      rewrite He in Hwarn. now injection Hwarn as <-.
    - injection Hwarn as <-. apply same_but_log_refl. }
  apply bind_returns in Hinit as (group_id & w2 & Hgroup & Hinit).
  rewrite session_task_group_id_of_spec in Hgroup.
  assert (Hid : group_id = if truthy (arg_task_group_id a)
                           then str (arg_task_group_id a) else fresh_group_id w).
  { destruct Hq1 as (_ & _ & Hu & Hd & _).
    destruct (truthy _); injection Hgroup as <- <-; [reflexivity|].
    unfold fresh_group_id. now rewrite Hu, Hd. }
  assert (Hreq2 : requests w2 = requests w /\
                  draws w2 = if truthy (arg_task_group_id a)
                             then draws w else S (draws w)).
  { destruct Hq1 as (_ & Hr & _ & Hd & _).
    destruct (truthy _); injection Hgroup as _ <-; simpl; split; congruence. }
  clear Hgroup.
  apply bind_returns in Hinit as (u1 & w3 & Hd1 & Hinit).
  apply bind_returns in Hinit as (u2 & w4 & Hd2 & Hinit).
  apply bind_returns in Hinit as (u3 & w5 & Hd3 & Hinit).
  apply deprecation_quiet in Hd1 as Hq3.
  apply deprecation_quiet in Hd2 as Hq4.
  apply deprecation_quiet in Hd3 as Hq5.
  assert (Hreq5 : requests w5 = requests w2 /\ draws w5 = draws w2).
  { destruct Hq3 as (_ & H3 & _ & D3 & _), Hq4 as (_ & H4 & _ & D4 & _),
             Hq5 as (_ & H5 & _ & D5 & _).
    split; congruence. }
  apply bind_returns in Hinit as ([] & w6 & Hlogin & Hinit).
  assert (Hw6 : w6 = w5).
  { destruct (arg_login_manager a).
    - now injection Hlogin as <-.
    - now injection Hlogin as _ <-. }
  subst w6.
  apply bind_returns in Hinit as (p & w7 & Hcheck & Hinit).
  assert (Hw7 : requests w7 =
                (requests w5 ++ if arg_do_version_check a then [GetVersion] else [])%list /\
                draws w7 = draws w5).
  { destruct (arg_do_version_check a).
    - unfold on_object in Hcheck.
      match type of Hcheck with
      | context [version_check None ?s0] =>
          pose proof (version_check_one_request None s0) as (Hr & _ & _ & Hd);
          destruct (version_check None s0) as [[e|[]] s7]
      end; [discriminate|].
      injection Hcheck as _ <-. simpl in Hr, Hd. auto.
    - injection Hcheck as _ <-. now rewrite app_nil_r. }
  destruct Hw7 as [Hreq7 Hdr7].
  destruct Hreq2 as [Hreq2 Hdr2]. destruct Hreq5 as [Hreq5 Hdr5].
  assert (Hend : session_task_group_id c = group_id /\ _task_status_table c = ∅ /\
                 asynchronous c = arg_asynchronous a /\ w' = w7).
  { destruct (arg_asynchronous a).
    - apply bind_returns in Hinit as (the_loop & w8 & Hloop & Hinit).
      injection Hinit as <- <-. simpl.
      destruct (arg_loop a); unfold get_event_loop, ret in Hloop;
        injection Hloop as _ <-; auto.
    - injection Hinit as <- <-. auto. }
  destruct Hend as (Hgid & Htab & Hasync & ->).
  split; [congruence|]. split; [exact Htab|]. split; [exact Hasync|].
  split; congruence.
Qed.


(** ** Version checks *)

Lemma version_calls_app l1 l2 :
  version_calls (l1 ++ l2) = version_calls l1 + version_calls l2.
Proof. unfold version_calls. rewrite filter_app. apply length_app. Qed.

(** [register_endpoint] starts with a [version_check], asked for or
    not, and registers only if it passes. *)
Lemma register_endpoint_requests name endpoint_id metadata endpoint_version s :
  let r := register_endpoint name endpoint_id metadata endpoint_version s in
  requests (env r.2) =
    (requests (env s) ++ GetVersion ::
       match (version_check None s).1 with
       | inl _ => []
       | inr _ => [RegisterEndpoint name endpoint_id metadata endpoint_version]
       end)%list.
Proof.
  unfold register_endpoint, bind. cbv zeta.
  pose proof (version_check_one_request None s) as (Hreq & _).
  destruct (version_check None s) as [[e|[]] s1]; simpl in *.
  - rewrite Hreq. reflexivity.
  - unfold on_world, call. simpl. rewrite Hreq.
    now rewrite <- app_assoc.
Qed.

(** C6. A client constructed with [do_version_check=True] and then
    asked to [register_endpoint] has sent exactly two [GET /version]
    requests: one while it was constructed and one by
    [register_endpoint], which runs [version_check] whether or not the
    client was constructed with the check; constructed with
    [do_version_check=False], only the second one is sent. *)
Theorem construction_then_registration_version_calls
    a w c w' name endpoint_id metadata endpoint_version :
  __init__ a w = (inr c, w') ->
  let after :=
    (register_endpoint name endpoint_id metadata endpoint_version
       {| self := c; env := w' |}).2 in
  version_calls (requests w') =
    version_calls (requests w) + (if arg_do_version_check a then 1 else 0) /\
  version_calls (requests (env after)) = version_calls (requests w') + 1 /\
  version_calls (requests (env after)) =
    version_calls (requests w) + (if arg_do_version_check a then 2 else 1) /\
  (requests w = [] -> arg_do_version_check a = true ->
     version_calls (requests (env after)) = 2).
Proof.
  intros Hinit after.
  apply init_returns in Hinit as (_ & _ & _ & Hreq & _).
  assert (Hbuilt : version_calls (requests w') =
    version_calls (requests w) + (if arg_do_version_check a then 1 else 0)).
  { rewrite Hreq, version_calls_app. destruct (arg_do_version_check a); reflexivity. }
  assert (Hreg : version_calls (requests (env after)) =
                 version_calls (requests w') + 1).
  { unfold after. rewrite register_endpoint_requests. simpl.
    rewrite version_calls_app. f_equal.
    destruct (version_check None _).1; reflexivity. }
  split; [exact Hbuilt|]. split; [exact Hreg|]. split.
  - rewrite Hreg, Hbuilt. destruct (arg_do_version_check a); lia.
  - intros Hempty Hcheck. rewrite Hreg, Hbuilt, Hempty, Hcheck. reflexivity.
Qed.

(** With an endpoint version, the check compares it with the service's
    [min_ep_version] once the SDK's own version has passed; when the
    comparison refuses it, [version_check] raises. *)
Lemma version_check_refuses_endpoint s data min_ep min_sdk v e :
  on_get_version (svc (env s)) (requests (env s)) = inr data ->
  getitem data "min_ep_version" = inr min_ep ->
  getitem data "min_sdk_version" = inr min_sdk ->
  compare_versions v min_ep "funcx-endpoint" = inl e ->
  exists e',
    (version_check (Some v) s).1 = inl e' /\
    (e' = e \/ compare_versions __version__ min_sdk "funcx" = inl e').
Proof.
  intros Hdata Hep Hsdk Hcmp.
  unfold version_check, bind, on_world, call, lift. simpl.
  rewrite Hdata, Hep, Hsdk.
  destruct (compare_versions __version__ min_sdk "funcx") as [e0|[]] eqn:Hs; simpl.
  - exists e0. auto.
  - rewrite Hcmp. exists e. auto.
Qed.

(** Without one, [min_ep_version] is read and not compared: this is how
    [__init__] and [register_endpoint] run the check. *)
Lemma version_check_without_endpoint_version s data min_ep min_sdk :
  on_get_version (svc (env s)) (requests (env s)) = inr data ->
  getitem data "min_ep_version" = inr min_ep ->
  getitem data "min_sdk_version" = inr min_sdk ->
  compare_versions __version__ min_sdk "funcx" = inr tt ->
  (version_check None s).1 = inr tt.
Proof.
  intros Hdata Hep Hsdk Hcmp.
  unfold version_check, bind, on_world, call, lift. simpl.
  rewrite Hdata, Hep, Hsdk, Hcmp. reflexivity.
Qed.

(** ** Batch submission *)

(** An entry of the response that the loop of [batch_run] passes over:
    it has a task id and its status code is 200. *)
Definition accepted (result : value) : Prop :=
  (exists task_id, getitem result "task_uuid" = inr task_id) /\
  getitem result "http_status_code" = inr (VInt 200).

(** An entry with a task id and a status code other than 200, from
    which [handle_response_errors] derives the error [e]. *)
Definition refused (result : value) (e : exn) : Prop :=
  (exists task_id, getitem result "task_uuid" = inr task_id) /\
  (exists code, getitem result "http_status_code" = inr code /\
                code <> VInt 200) /\
  handle_response_errors result = inl e.

Lemma ne_int_200 code : ne_int code 200 = true <-> code <> VInt 200.
Proof.
  destruct code as [|b|z|?|?|?]; simpl; try (split; [discriminate|reflexivity]).
  - destruct b; simpl; split; auto; discriminate.
  - rewrite negb_true_iff, Z.eqb_neq. split; [congruence|].
    intros Hne Hz. apply Hne. now rewrite Hz.
Qed.

Lemma collect_task_uuids_first_error pre bad post e :
  Forall accepted pre -> refused bad e ->
  forall task_uuids s,
    collect_task_uuids (pre ++ bad :: post) task_uuids s = (inl e, s).
Proof.
  intros Hpre ((task_id & Hid) & (code & Hcode & Hne) & Herr).
  induction Hpre as [|result pre ((id0 & Hid0) & Hcode0) _ IH];
    intros task_uuids s; simpl; unfold bind, lift.
  - rewrite Hid, Hcode. apply ne_int_200 in Hne. rewrite Hne, Herr. reflexivity.
  - rewrite Hid0, Hcode0. simpl. apply IH.
Qed.

(** An entry with another status code from which
    [handle_response_errors] derives no error is passed over like an
    accepted one: the loop goes on to the next entry. *)
Lemma collect_task_uuids_no_error result rest task_id code task_uuids s :
  getitem result "task_uuid" = inr task_id ->
  getitem result "http_status_code" = inr code ->
  handle_response_errors result = inr tt ->
  collect_task_uuids (result :: rest) task_uuids s =
  collect_task_uuids rest (task_uuids ++ [task_id])%list s.
Proof.
  intros Hid Hcode Hquiet. simpl. unfold bind, lift.
  rewrite Hid, Hcode, Hquiet. now destruct (ne_int code 200).
Qed.

(** C4. When the response to a batch submission has an entry whose
    [http_status_code] is not 200, [batch_run] raises the error that
    [handle_response_errors] derives from the first such entry, in the
    order of the response: whatever the later entries are, failed or
    not, nothing of them is looked at, and the submission itself has
    been sent. *)
Theorem batch_run_raises_first_error batch s r pre bad post e :
  tasks batch <> [] ->
  on_submit (svc (env s)) (requests (env s)) (prepare batch) = inr r ->
  getitem r "results" = inr (VList (pre ++ bad :: post)) ->
  Forall accepted pre ->
  refused bad e ->
  batch_run batch s =
  (inl e, {| self := self s;
             env := record_request (Submit (prepare batch)) (env s) |}).
Proof.
  intros Hne Hanswer Hresults Hpre Hbad.
  unfold batch_run, bind, assert_.
  destruct (tasks batch) as [|t ts]; [contradiction|]. simpl.
  unfold on_world, call, lift. simpl. rewrite Hanswer, Hresults. simpl.
  now rewrite (collect_task_uuids_first_error pre bad post e Hpre Hbad).
Qed.

End Properties.

End ClientSpec.

(* ===================================================================== *)
(** * A concrete setting: collaborators, a service, a client              *)
(* ===================================================================== *)

Module Sample.
Import Py Monad Client.

(** Release numbers of a dotted version string, as in ["1.0.3"]. *)
Definition digit_of (c : ascii) : option N :=
  let n := N_of_ascii c in
  if (48 <=? n)%N && (n <=? 57)%N then Some (n - 48)%N else None.

Fixpoint release_from (s : string) (cur : option N) : option (list N) :=
  match s with
  | EmptyString => (fun n => [n]) <$> cur
  | String c s' =>
      if Ascii.eqb c "."%char then
        match cur with
        | Some n => cons n <$> release_from s' None
        | None => None
        end
      else
        match digit_of c with
        | Some d => release_from s' (Some (10 * default 0%N cur + d)%N)
        | None => None
        end
  end.

Definition release (s : string) : option (list N) := release_from s None.

Fixpoint release_lt (a b : list N) : bool :=
  match a, b with
  | [], [] => false
  | [], y :: b' => (0 <? y)%N || release_lt [] b'
  | x :: a', [] => false
  | x :: a', y :: b' => (x <? y)%N || ((x =? y)%N && release_lt a' b')
  end.

(** [current] is an older release than [min_version]. *)
Definition older (current : string) (min_version : value) : bool :=
  match min_version with
  | VStr m =>
      match release current, release m with
      | Some a, Some b => release_lt a b
      | _, _ => false
      end
  | _ => false
  end.

Definition sample_compare_versions (current : string) (min_version : value)
    (package_name : string) : outcome unit :=
  if older current min_version
  then inl (VersionMismatch package_name current min_version)
  else inr tt.

(** The error in a failed entry of a batch response is its ["reason"]. *)
Definition sample_handle_response_errors (result : value) : outcome unit :=
  match getitem result "reason" with
  | inr reason => inl (ServiceError reason)
  | inl _ => inr tt
  end.

(** The serializer of this setting keeps strings as they are. *)
Definition sample_deserialize (payload : value) : outcome value :=
  match payload with
  | VStr s => inr (VStr s)
  | _ => inl (TypeError "payload")
  end.

(** The double quote. *)
Definition dq : string := String (ascii_of_nat 34) EmptyString.

(** The text of a task that waits for its endpoint. *)
Definition waiting_text : string :=
  "{" ++ dq ++ "status" ++ dq ++ ": " ++ dq ++ "waiting-for-ep" ++ dq ++ "}".

(** The two response texts of this setting, parsed. *)
Definition sample_json_loads (text : string) : outcome value :=
  if String.eqb text waiting_text
  then inr (VDict {[ "status" := VStr "waiting-for-ep" ]})
  else if String.eqb text "[]" then inr (VList [])
  else inl JSONDecodeError.

#[export] Instance collaborators : Collaborators := {|
  json_loads := sample_json_loads;
  deserialize := sample_deserialize;
  compare_versions := sample_compare_versions;
  handle_response_errors := sample_handle_response_errors;
  __version__ := "1.0.3";
  get_web_service_url := fun _ => "https://api2.funcx.org/v2";
  get_web_socket_url := fun _ => "wss://api2.funcx.org/ws/v2/";
  urls_might_mismatch := fun _ _ => false;
  expanduser := fun p => p;
  prepare := fun b => VDict {[ "task_group_id" := VStr (task_group_id b);
                               "tasks" := VList (tasks b) ]};
|}.

(** The [GET /version] response of the test suite's fixture. *)
Definition version_response (min_ep_version : string) : value :=
  VDict {[ "api" := VStr "0.4.0";
           "min_ep_version" := VStr min_ep_version;
           "min_sdk_version" := VStr "0.0.0" ]}.

Definition entry (task_uuid : string) (code : Z) (reason : option string) : value :=
  VDict (<[ "task_uuid" := VStr task_uuid ]>
         (<[ "http_status_code" := VInt code ]>
          (match reason with
           | Some why => {[ "reason" := VStr why ]}
           | None => ∅
           end))).

(** A batch whose second and third tasks the service refuses. *)
Definition mixed_batch_response : value :=
  VDict {[ "task_group_id" := VStr "group";
           "results" := VList [ entry "t1" 200 None;
                                entry "t2" 404 (Some "endpoint not found");
                                entry "t3" 500 (Some "internal error") ] ]}.

Definition sample_service (min_ep_version : string) : service := {|
  on_get_version := fun _ => inr (version_response min_ep_version);
  on_get_task := fun _ _ => inr waiting_text;
  on_get_batch_status := fun _ _ => inr (VDict {[ "results" := VDict ∅ ]});
  on_submit := fun _ _ => inr mixed_batch_response;
  on_register_endpoint := fun _ _ _ _ _ => inr (VDict ∅);
|}.

Definition sample_world (min_ep_version : string) : world := {|
  svc := sample_service min_ep_version;
  requests := [];
  urandom := fun k => (N.of_nat k * 0x0123456789abcdef0123456789abcdef + 77)%N;
  draws := 0;
  login_flow := inr tt;
  emitted := [];
  warning_filter := fun _ => false;
  event_loop := inr 1;
|}.

Definition sample_args (group : task_group_arg) (check : bool) : init_args := {|
  arg_funcx_home := "~/.funcx";
  arg_asynchronous := false;
  arg_loop := None;
  arg_environment := None;
  arg_funcx_service_address := None;
  arg_results_ws_uri := None;
  arg_warn_about_url_mismatch := true;
  arg_task_group_id := group;
  arg_do_version_check := check;
  arg_openid_authorizer := false;
  arg_search_authorizer := false;
  arg_fx_authorizer := false;
  arg_login_manager := true;
|}.

Definition blank : FuncXClient := {|
  _task_status_table := ∅;
  funcx_home := "";
  session_task_group_id := "";
  funcx_service_address := "";
  results_ws_uri := "";
  asynchronous := false;
  loop := None;
  ws_polling_task := None;
|}.

(** The object a construction returned ([blank] if it raised). *)
Definition constructed (r : outcome FuncXClient * world) : FuncXClient :=
  match r.1 with
  | inr c => c
  | inl _ => blank
  end.

Definition done_entry : task_status :=
  {| pending := false; status := "success";
     completed := Some (VStr "4", VStr "1668000000.0") |}.

(** A client that has seen task ["t1"] finish. *)
Definition sample_state : state := {|
  self := {| _task_status_table := {[ "t1" := done_entry ]};
             funcx_home := "~/.funcx";
             session_task_group_id := "group";
             funcx_service_address := "https://api2.funcx.org/v2";
             results_ws_uri := "wss://api2.funcx.org/ws/v2/";
             asynchronous := false;
             loop := None;
             ws_polling_task := None |};
  env := sample_world "0.0.0";
|}.

Definition one_task_batch : Batch :=
  {| tasks := [VStr "f(1)"]; task_group_id := "group" |}.

End Sample.

(* ===================================================================== *)
(** * The properties of the client at work in the concrete setting        *)
(* ===================================================================== *)

Module ClientExamples.
Import Py Monad Client ClientSpec Sample.

(** A finished task without data: the table still has no entry. *)
Lemma update_task_table_raise_keeps_table_witness :
  (_update_task_table (VDict {[ "status" := VStr "SUCCESS" ]}) "t2" sample_state).2
    = sample_state /\
  _task_status_table
    (self (_update_task_table (VDict {[ "status" := VStr "SUCCESS" ]}) "t2"
             sample_state).2) !! "t2" =
  _task_status_table (self sample_state) !! "t2".
Proof.
  apply (update_task_table_raise_keeps_table
           (VDict {[ "status" := VStr "SUCCESS" ]}) "t2" sample_state
           (ValueError "non-pending result is missing result data")).
  vm_compute. reflexivity.
Defined.

(** Task ["t1"] is finished and cached: no request is made for it. *)
Lemma finished_task_answered_from_cache_witness :
  get_task "t1" sample_state = (inr done_entry, sample_state) /\
  ("t1" ∉ still_pending sample_state ["t2"; "t1"]) /\
  match get_batch_result ["t2"; "t1"] sample_state with
  | (inr results, s') =>
      results !! "t1" = Some done_entry /\
      _task_status_table (self s') !! "t1" = Some done_entry /\
      requests (env s') =
        (requests (env sample_state) ++
         batch_status_requests (still_pending sample_state ["t2"; "t1"]))%list
  | (inl e, s') =>
      on_get_batch_status (svc (env sample_state)) (requests (env sample_state))
        (still_pending sample_state ["t2"; "t1"]) = inl e /\
      _task_status_table (self s') = _task_status_table (self sample_state) /\
      requests (env s') =
        (requests (env sample_state) ++
         [GetBatchStatus (still_pending sample_state ["t2"; "t1"])])%list
  end.
Proof.
  destruct (finished_task_answered_from_cache sample_state "t1" done_entry)
    as (Hget & _ & _ & Hbatch).
  - vm_compute. reflexivity.
  - reflexivity.
  - split; [exact Hget|].
    destruct (Hbatch ["t2"; "t1"]) as (Hnot & _ & Hres).
    + apply list_elem_of_further, list_elem_of_here.
    + split; [exact Hnot | exact Hres].
Defined.


(** Construction with the check, then registration: two requests. *)
Lemma construction_then_registration_version_calls_witness :
  version_calls
    (requests (env
      (register_endpoint "endpoint_foo" "0000" VNone (Some "1.0.3")
         {| self := constructed (__init__ (sample_args TG_None true)
                                          (sample_world "0.0.0"));
            env := (__init__ (sample_args TG_None true)
                             (sample_world "0.0.0")).2 |}).2)) = 2.
Proof.
  apply (construction_then_registration_version_calls
           (sample_args TG_None true) (sample_world "0.0.0")
           (constructed (__init__ (sample_args TG_None true) (sample_world "0.0.0")))
           (__init__ (sample_args TG_None true) (sample_world "0.0.0")).2
           "endpoint_foo" "0000" VNone (Some "1.0.3")).
  - vm_compute. reflexivity.
  - reflexivity.
  - reflexivity.
Defined.

(** Of the two refused tasks, the error of the first is raised. *)
Lemma batch_run_raises_first_error_witness :
  batch_run one_task_batch sample_state =
  (inl (ServiceError (VStr "endpoint not found")),
   {| self := self sample_state;
      env := record_request (Submit (prepare one_task_batch)) (env sample_state) |}).
Proof.
  apply (batch_run_raises_first_error one_task_batch sample_state
           mixed_batch_response
           [entry "t1" 200 None]
           (entry "t2" 404 (Some "endpoint not found"))
           [entry "t3" 500 (Some "internal error")]).
  - discriminate.
  - reflexivity.
  - vm_compute. reflexivity.
  - constructor; [|constructor]. split.
    + exists (VStr "t1"). vm_compute. reflexivity.
    + vm_compute. reflexivity.
  - split; [|split].
    + exists (VStr "t2"). vm_compute. reflexivity.
    + exists (VInt 404). split; [vm_compute; reflexivity | discriminate].
    + vm_compute. reflexivity.
Defined.

End ClientExamples.

(* ===================================================================== *)
(** * The scaling strategy of an endpoint                                 *)
(* ===================================================================== *)

Module Strategy.

#[local] Open Scope nat_scope.

(** The scaling parameters an endpoint configuration sets on its
    executor, its provider and its strategy. *)
Record config : Type := {
  max_workers_per_node : nat;
  nodes_per_block : nat;
  init_blocks : nat;
  min_blocks : nat;
  max_blocks : nat;
  max_idletime : nat;       (* seconds *)
}.

(** [docs/configs/polaris.py]. *)
Definition polaris : config := {|
  max_workers_per_node := 1;
  nodes_per_block := 1;
  init_blocks := 0;
  min_blocks := 0;
  max_blocks := 2;
  max_idletime := 300;
|}.

(** What a tick of the control loop observes: the allocated blocks, the
    tasks outstanding in the executor, and the seconds since the last
    task was submitted. *)
Record observation : Type := {
  blocks : nat;
  outstanding : nat;
  idle : nat;
}.

Inductive command : Type :=
| scale_out (n : nat)
| scale_in (n : nat)
| hold.

Definition slots_per_block (c : config) : nat :=
  max_workers_per_node c * nodes_per_block c.

(** The blocks it takes to run [n] tasks at once. *)
Definition blocks_to_cover (c : config) (n : nat) : nat :=
  match slots_per_block c with
  | O => match n with O => 0 | S _ => max_blocks c end
  | S k => (n + k) / S k
  end.

(** Modelled from the spec: the Simple strategy
    ([funcx_endpoint.strategies.SimpleStrategy] is not among the sources).
    Enough blocks to cover the outstanding tasks, up to [max_blocks], are
    maintained, and never fewer than [min_blocks]: a tick that sees fewer
    asks for the difference. A tick that sees no task submitted for
    [max_idletime] seconds scales down, to [min_blocks] when no
    outstanding task needs more and to what the outstanding tasks need
    otherwise: no block is taken from under a task. A tick that sees
    both signals scales out. *)
Definition covering (c : config) (o : observation) : nat :=
  Nat.min (blocks_to_cover c (outstanding o)) (max_blocks c).

(** The least count the policy allows at an observation. *)
Definition floor (c : config) (o : observation) : nat :=
  Nat.max (min_blocks c) (covering c o).

Definition scale_out_signal (c : config) (o : observation) : bool :=
  blocks o <? floor c o.

Definition scale_in_signal (c : config) (o : observation) : bool :=
  max_idletime c <=? idle o.

Definition strategize (c : config) (o : observation) : command :=
  if scale_out_signal c o then scale_out (floor c o - blocks o)
  else if scale_in_signal c o then scale_in (blocks o - floor c o)
  else hold.

(** The provider carries a command out. *)
Definition provide (cmd : command) (o : observation) : observation :=
  match cmd with
  | scale_out n =>
      {| blocks := blocks o + n; outstanding := outstanding o; idle := idle o |}
  | scale_in n =>
      {| blocks := blocks o - n; outstanding := outstanding o; idle := idle o |}
  | hold => o
  end.

(** What happens around and in the control loop. *)
Inductive event : Type :=
| Submit                  (* a task reaches the executor *)
| Complete                (* a task leaves it *)
| Elapse (seconds : nat)
| Tick.

Definition react (c : config) (o : observation) (e : event) : observation :=
  match e with
  | Submit => {| blocks := blocks o; outstanding := S (outstanding o); idle := 0 |}
  | Complete =>
      {| blocks := blocks o; outstanding := pred (outstanding o); idle := idle o |}
  | Elapse d =>
      {| blocks := blocks o; outstanding := outstanding o; idle := idle o + d |}
  | Tick => provide (strategize c o) o
  end.

(** The loop starts with the blocks the provider is configured to
    allocate at first. *)
Definition start (c : config) : observation :=
  {| blocks := init_blocks c; outstanding := 0; idle := 0 |}.

(** The state the loop is in after a history of events. *)
Definition after (c : config) (history : list event) : observation :=
  fold_left (react c) history (start c).

(** A tick every [period] seconds, [n] times. *)
Fixpoint ticking (period n : nat) : list event :=
  match n with
  | O => []
  | S n' => Elapse period :: Tick :: ticking period n'
  end.

Definition within_bounds (c : config) (o : observation) : Prop :=
  min_blocks c <= blocks o <= max_blocks c.

(** Once [max_idletime] seconds have passed without a submission, a
    tick leaves [min_blocks] blocks. *)
Definition idle_means_min_blocks (c : config) : Prop :=
  forall history,
    max_idletime c <= idle (after c history) ->
    blocks (after c (history ++ [Tick])) = min_blocks c.

Lemma after_snoc c history e :
  after c (history ++ [e]) = react c (after c history) e.
Proof. unfold after. now rewrite fold_left_app. Qed.

Lemma floor_within_bounds c o :
  min_blocks c <= max_blocks c -> min_blocks c <= floor c o <= max_blocks c.
Proof. unfold floor, covering. lia. Qed.

(** A tick keeps the block count within bounds. *)
Lemma tick_within_bounds c o :
  within_bounds c o -> within_bounds c (react c o Tick).
Proof.
  unfold within_bounds, react, strategize, scale_out_signal. intros [Hlo Hhi].
  assert (Hf : min_blocks c <= floor c o <= max_blocks c)
    by (apply floor_within_bounds; lia).
  destruct (blocks o <? floor c o) eqn:Hout.
  - apply Nat.ltb_lt in Hout. simpl. lia.
  - apply Nat.ltb_ge in Hout. destruct (scale_in_signal c o); simpl; lia.
Qed.

Lemma react_within_bounds c o e :
  within_bounds c o -> within_bounds c (react c o e).
Proof.
  destruct e; [easy | easy | easy | apply tick_within_bounds].
Qed.

(** From a start within bounds, the block count stays within bounds
    through every history of submissions, completions, waits and
    ticks. *)
Lemma bounds_kept c history :
  min_blocks c <= init_blocks c <= max_blocks c ->
  within_bounds c (after c history).
Proof.
  intros Hinit. induction history as [|e h IH] using rev_ind.
  - exact Hinit.
  - rewrite after_snoc. now apply react_within_bounds.
Qed.

(** A tick that sees the idle signal leaves the least count the policy
    allows, whether it scales out or in. *)
Lemma idle_tick c o :
  scale_in_signal c o = true -> blocks (react c o Tick) = floor c o.
Proof.
  unfold react, strategize, scale_out_signal. intros Hin. rewrite Hin.
  destruct (blocks o <? floor c o) eqn:Hout; simpl.
  - apply Nat.ltb_lt in Hout. lia.
  - apply Nat.ltb_ge in Hout. lia.
Qed.

(** With no task outstanding, that count is [min_blocks]. *)
Lemma idle_tick_without_work c history :
  max_idletime c <= idle (after c history) ->
  outstanding (after c history) = 0 ->
  blocks (after c (history ++ [Tick])) = min_blocks c.
Proof.
  intros Hidle Hnone. rewrite after_snoc, idle_tick.
  - unfold floor, covering, blocks_to_cover. rewrite Hnone.
    destruct (slots_per_block c) as [|k]; [lia|].
    rewrite Nat.div_small by lia. lia.
  - now apply Nat.leb_le.
Qed.

(** A tick that sees fewer blocks than the policy allows scales out,
    idle or not. *)
Lemma busy_tick_scales_out c o :
  scale_out_signal c o = true ->
  blocks (react c o Tick) = floor c o /\ blocks o < blocks (react c o Tick).
Proof.
  unfold react, strategize. intros Hout. rewrite Hout.
  apply Nat.ltb_lt in Hout. simpl. lia.
Qed.

(** One task on Polaris, submitted and never finished, with a tick every
    five seconds. *)
Definition long_task (ticks : nat) : list event :=
  Submit :: Tick :: ticking 5 ticks.

(** The block that runs it is kept past [max_idletime]. *)
Example long_task_keeps_block :
  after polaris (long_task 59) = {| blocks := 1; outstanding := 1; idle := 295 |} /\
  after polaris (long_task 60) = {| blocks := 1; outstanding := 1; idle := 300 |} /\
  after polaris (long_task 61) = {| blocks := 1; outstanding := 1; idle := 305 |}.
Proof. repeat split; vm_compute; reflexivity. Qed.

(** So, with a task that outlives [max_idletime], the idle tick does not
    leave [min_blocks] blocks. *)
Lemma idle_with_outstanding_task :
  ~ idle_means_min_blocks polaris.
Proof.
  intros Hclaim.
  specialize (Hclaim (long_task 59 ++ [Elapse 5])%list).
  assert (Hidle : max_idletime polaris <=
                  idle (after polaris (long_task 59 ++ [Elapse 5])%list)).
  { apply Nat.leb_le. vm_compute. reflexivity. }
  apply Hclaim in Hidle. vm_compute in Hidle. discriminate.
Qed.

(** Scenario: [min_blocks=0], [max_blocks=2], [max_idletime=2]; one task
    is submitted and completes, then five idle seconds: scaled in to 0. *)
Example scale_down_after_idle :
  let c := {| max_workers_per_node := 1; nodes_per_block := 1; init_blocks := 0;
              min_blocks := 0; max_blocks := 2; max_idletime := 2 |} in
  blocks (after c [Submit; Tick]) = 1 /\
  blocks (after c [Submit; Tick; Complete; Elapse 5; Tick]) = 0.
Proof. split; reflexivity. Qed.

End Strategy.

(* ===================================================================== *)
(** * The endpoint interchange                                            *)
(* ===================================================================== *)

Module Interchange.

#[local] Open Scope list_scope.

(** A message body. *)
Definition bytes : Type := string.

(** The two messages the integration test exchanges with the endpoint:
    [Task(task_id=.., task_buffer=..)] and a [Result] with a [task_id]
    and [data]. *)
Module Task.
Record t : Type := { task_id : string; task_buffer : bytes }.
End Task.

Module Result.
Record t : Type := { task_id : string; data : bytes }.
End Result.

(** How the messages travel: [pack] and [unpack] for tasks
    ([funcx_common.messagepack]), [dumps] and [loads] for results
    ([dill]). *)
Class Codec : Type := {
  pack : Task.t -> bytes;
  unpack : bytes -> option Task.t;
  dumps : Result.t -> bytes;
  loads : bytes -> option Result.t;
}.

(** Modelled from the spec: the executor facade (the executors are not
    among the sources). [submit] hands a task over without blocking,
    [results] yields the pairs of task id and result body in completion
    order, [outstanding] counts the tasks in flight. What a worker makes
    of a task buffer is the executor's [worker]. *)
Record executor : Type := {
  worker : string -> bytes -> bytes;
  in_flight : list (string * bytes);
  finished : list (string * bytes);
}.

Definition submit (task_id : string) (task_buffer : bytes) (x : executor) : executor :=
  {| worker := worker x;
     in_flight := in_flight x ++ [(task_id, task_buffer)];
     finished := finished x |}.

Definition outstanding (x : executor) : nat := length (in_flight x).

(** A worker finishes the oldest task in flight. *)
Definition work (x : executor) : executor :=
  match in_flight x with
  | [] => x
  | (task_id, task_buffer) :: rest =>
      {| worker := worker x;
         in_flight := rest;
         finished := finished x ++ [(task_id, worker x task_id task_buffer)] |}
  end.

(** The next pair of [results], taken off the sequence. *)
Definition next_result (x : executor) : option ((string * bytes) * executor) :=
  match finished x with
  | [] => None
  | r :: rest =>
      Some (r, {| worker := worker x; in_flight := in_flight x; finished := rest |})
  end.

(** The identity mock executor of the integration tests: the result of
    a task carries the task's id and echoes its buffer. *)
Definition mock_executor `{Codec} : executor := {|
  worker := fun task_id task_buffer =>
    dumps {| Result.task_id := task_id; Result.data := task_buffer |};
  in_flight := [];
  finished := [];
|}.

(** Modelled from the spec: the result spool, a directory
    [unacked_results/] with one file per task id whose content is the
    result body as it will be published. *)
Definition spool_put (task_id : string) (body : bytes) (sp : gmap string bytes)
  : gmap string bytes := <[task_id := body]> sp.

Definition spool_delete (task_id : string) (sp : gmap string bytes)
  : gmap string bytes := delete task_id sp.

Definition spool_contains (task_id : string) (sp : gmap string bytes) : bool :=
  bool_decide (is_Some (sp !! task_id)).

Definition iter_pending (sp : gmap string bytes) : list string :=
  (map_to_list sp).*1.

(** Modelled from the spec: the states of the interchange. *)
Inductive phase : Type :=
| Starting | Registering | Connecting | Running | Reconnecting | Draining | Stopped.

(** What the interchange did, oldest first. *)
Inductive event : Type :=
| Consumed (body : bytes)
| Rejected (body : bytes)
| Submitted (task_id : string)
| Acked (task_id : string)
| Spooled (task_id : string) (body : bytes)
| Published (task_id : string) (body : bytes)
| PublishFailed (task_id : string)
| Deleted (task_id : string).

(** Modelled from the spec: the interchange between a broker and an
    executor. The broker holds the task queue and the result queue and
    fails the next [faults] publishes before it confirms one; the publish
    pipeline holds the task ids whose spool entry waits to be published. *)
Record interchange : Type := {
  state : phase;
  task_queue : list bytes;
  result_queue : list (string * bytes);      (* routing key, body *)
  faults : nat;
  routing_key : string;
  exec : executor;
  spool : gmap string bytes;
  pipeline : list string;
  drain_left : nat;
  trace : list event;
}.

Definition with_state (p : phase) (i : interchange) : interchange :=
  {| state := p; task_queue := task_queue i; result_queue := result_queue i;
     faults := faults i; routing_key := routing_key i; exec := exec i;
     spool := spool i; pipeline := pipeline i; drain_left := drain_left i;
     trace := trace i |}.

(** Spool replay on entering [Running]: every pending entry goes to the
    publish pipeline unless it is there already. *)
Definition schedule_pending (i : interchange) : list string :=
  pipeline i ++
  filter (fun task_id => task_id ∉ pipeline i) (iter_pending (spool i)).

Definition enter_running (i : interchange) : interchange :=
  {| state := Running; task_queue := task_queue i; result_queue := result_queue i;
     faults := faults i; routing_key := routing_key i; exec := exec i;
     spool := spool i; pipeline := schedule_pending i; drain_left := drain_left i;
     trace := trace i |}.

(** Egress, last two steps: publish the head of the pipeline; the entry
    leaves the spool once the broker has confirmed, and stays when the
    publish failed, in which case the interchange reconnects. *)
Definition publish_head (task_id : string) (rest : list string) (i : interchange)
  : interchange :=
  match spool i !! task_id with
  | None =>
      {| state := state i; task_queue := task_queue i;
         result_queue := result_queue i; faults := faults i;
         routing_key := routing_key i; exec := exec i; spool := spool i;
         pipeline := rest; drain_left := drain_left i; trace := trace i |}
  | Some body =>
      match faults i with
      | S k =>
          {| state := match state i with Running => Reconnecting | p => p end;
             task_queue := task_queue i; result_queue := result_queue i;
             faults := k; routing_key := routing_key i; exec := exec i;
             spool := spool i; pipeline := pipeline i; drain_left := drain_left i;
             trace := trace i ++ [PublishFailed task_id] |}
      | O =>
          {| state := state i; task_queue := task_queue i;
             result_queue := result_queue i ++ [(routing_key i, body)];
             faults := 0; routing_key := routing_key i; exec := exec i;
             spool := spool_delete task_id (spool i); pipeline := rest;
             drain_left := drain_left i;
             trace := trace i ++ [Published task_id body; Deleted task_id] |}
      end
  end.

(** Egress, first step: a result of the executor is written to the
    spool and scheduled for publish. *)
Definition spool_result (r : string * bytes) (x : executor) (i : interchange)
  : interchange :=
  {| state := state i; task_queue := task_queue i; result_queue := result_queue i;
     faults := faults i; routing_key := routing_key i; exec := x;
     spool := spool_put r.1 r.2 (spool i);
     pipeline := if bool_decide (r.1 ∈ pipeline i) then pipeline i
                 else pipeline i ++ [r.1];
     drain_left := drain_left i;
     trace := trace i ++ [Spooled r.1 r.2] |}.

Definition let_work (i : interchange) : interchange :=
  {| state := state i; task_queue := task_queue i; result_queue := result_queue i;
     faults := faults i; routing_key := routing_key i; exec := work (exec i);
     spool := spool i; pipeline := pipeline i; drain_left := drain_left i;
     trace := trace i |}.

(** Ingress: consume a task, submit it to the executor, then ack. A body
    that is no task is rejected. *)
Definition consume `{Codec} (body : bytes) (rest : list bytes) (i : interchange)
  : interchange :=
  match unpack body with
  | Some t =>
      {| state := state i; task_queue := rest; result_queue := result_queue i;
         faults := faults i; routing_key := routing_key i;
         exec := submit (Task.task_id t) (Task.task_buffer t) (exec i);
         spool := spool i; pipeline := pipeline i; drain_left := drain_left i;
         trace := trace i ++ [Consumed body; Submitted (Task.task_id t);
                              Acked (Task.task_id t)] |}
  | None =>
      {| state := state i; task_queue := rest; result_queue := result_queue i;
         faults := faults i; routing_key := routing_key i; exec := exec i;
         spool := spool i; pipeline := pipeline i; drain_left := drain_left i;
         trace := trace i ++ [Consumed body; Rejected body] |}
  end.

(** The egress flow has something to do. *)
Definition egress_step (i : interchange) : option interchange :=
  match pipeline i with
  | task_id :: rest => Some (publish_head task_id rest i)
  | [] =>
      match next_result (exec i) with
      | Some (r, x) => Some (spool_result r x i)
      | None =>
          match in_flight (exec i) with
          | _ :: _ => Some (let_work i)
          | [] => None
          end
      end
  end.

Definition tick_drain (i : interchange) : interchange :=
  {| state := state i; task_queue := task_queue i; result_queue := result_queue i;
     faults := faults i; routing_key := routing_key i; exec := exec i;
     spool := spool i; pipeline := pipeline i; drain_left := pred (drain_left i);
     trace := trace i |}.

(** One step of the interchange. While [Running], egress goes first and
    ingress consumes when egress is idle. While [Draining], ingress is
    stopped and egress runs until nothing is left or the drain deadline
    has passed. *)
Definition step `{Codec} (i : interchange) : interchange :=
  match state i with
  | Starting => with_state Registering i
  | Registering => with_state Connecting i
  | Connecting => enter_running i
  | Reconnecting => with_state Connecting i
  | Running =>
      match egress_step i with
      | Some i' => i'
      | None =>
          match task_queue i with
          | body :: rest => consume body rest i
          | [] => i
          end
      end
  | Draining =>
      match drain_left i with
      | O => with_state Stopped i
      | S _ =>
          match egress_step i with
          | Some i' => tick_drain i'
          | None => with_state Stopped i
          end
      end
  | Stopped => i
  end.

Fixpoint run `{Codec} (n : nat) (i : interchange) : interchange :=
  match n with
  | O => i
  | S n' => run n' (step i)
  end.

(** [SIGTERM] or [SIGINT]. *)
Definition terminate (i : interchange) : interchange :=
  match state i with
  | Stopped => i
  | _ => with_state Draining i
  end.

(** An interchange that has just connected, with nothing in hand. *)
Definition connected `{Codec} (queue : list bytes) (key : string) (k : nat)
    (files : gmap string bytes) : interchange := {|
  state := Connecting; task_queue := queue; result_queue := [];
  faults := k; routing_key := key; exec := mock_executor;
  spool := files; pipeline := []; drain_left := 30; trace := [];
|}.

(** ** Properties of the model *)

Section RoundTrip.
Context `{Codec}.

(** The result the identity mock executor makes of a task. *)
Definition echo (t : Task.t) : Result.t :=
  {| Result.task_id := Task.task_id t; Result.data := Task.task_buffer t |}.

(** A running interchange with nothing in hand. *)
Definition at_rest (queue : list bytes) (published : list (string * bytes))
    (key : string) (k : nat) (log : list event) : interchange := {|
  state := Running; task_queue := queue; result_queue := published;
  faults := k; routing_key := key; exec := mock_executor;
  spool := ∅; pipeline := []; drain_left := 30; trace := log;
|}.

Lemma run_add n m i : run (n + m) i = run m (run n i).
Proof. revert i. induction n as [|n IH]; intros i; simpl; [reflexivity | apply IH]. Qed.

Lemma iter_pending_singleton task_id body :
  iter_pending (<[task_id := body]> ∅) = [task_id].
Proof.
  unfold iter_pending. rewrite insert_empty, map_to_list_singleton. reflexivity.
Qed.

(** One spooled result in the pipeline: after [k] failed publishes, each
    followed by a reconnection, the broker confirms and the entry leaves
    the spool. *)
Lemma publish_after_faults task_id body queue published key x dl k :
  forall log,
  exists log',
    run (3 * k + 1)
      {| state := Running; task_queue := queue; result_queue := published;
         faults := k; routing_key := key; exec := x;
         spool := <[task_id := body]> ∅; pipeline := [task_id];
         drain_left := dl; trace := log |} =
    {| state := Running; task_queue := queue;
       result_queue := published ++ [(key, body)];
       faults := 0; routing_key := key; exec := x;
       spool := ∅; pipeline := []; drain_left := dl; trace := log' |}.
Proof.
  induction k as [|k IH]; intros log.
  - eexists. simpl. unfold step, egress_step, publish_head. simpl.
    rewrite lookup_insert_eq. unfold spool_delete.
    rewrite delete_insert_eq, delete_empty. reflexivity.
  - replace (3 * S k + 1) with (3 + (3 * k + 1)) by lia.
    rewrite run_add.
    destruct (IH (log ++ [PublishFailed task_id])) as [log' Hrun].
    exists log'. rewrite <- Hrun. f_equal.
    simpl. unfold step, egress_step, publish_head. simpl.
    rewrite lookup_insert_eq. simpl.
    unfold enter_running, schedule_pending. simpl.
    rewrite iter_pending_singleton.
    rewrite filter_cons_False by (intros Hnot; apply Hnot, list_elem_of_here).
    reflexivity.
Qed.

Lemma iter_pending_empty : iter_pending ∅ = [].
Proof. unfold iter_pending. now rewrite map_to_list_empty. Qed.

(** The first step after connecting is the spool replay; with an empty
    spool the interchange is at rest. *)
Lemma connected_at_rest queue key k :
  step (connected queue key k ∅) = at_rest queue [] key k [].
Proof.
  unfold step, connected, enter_running, schedule_pending, at_rest. simpl.
  rewrite iter_pending_empty. reflexivity.
Qed.

Lemma at_rest_idle queue_is_empty published key k log n :
  queue_is_empty = [] ->
  run n (at_rest queue_is_empty published key k log) =
  at_rest queue_is_empty published key k log.
Proof. intros ->. induction n as [|n IH]; simpl; [reflexivity | exact IH]. Qed.

(** One task through the interchange at rest: consumed, submitted and
    acked; worked on; its result spooled; published after [k] failed
    attempts; deleted from the spool. *)
Lemma one_task_through body rest published key k log t :
  unpack body = Some t ->
  exists log',
    run (3 + (3 * k + 1)) (at_rest (body :: rest) published key k log) =
    at_rest rest (published ++ [(key, dumps (echo t))]) key 0 log'.
Proof.
  intros Hbody. rewrite run_add.
  match goal with
  | |- exists log', run _ ?mid = _ =>
      assert (Hmid : exists log0, mid =
        {| state := Running; task_queue := rest; result_queue := published;
           faults := k; routing_key := key; exec := mock_executor;
           spool := <[Task.task_id t := dumps (echo t)]> ∅;
           pipeline := [Task.task_id t]; drain_left := 30; trace := log0 |})
  end.
  { eexists. simpl. unfold step, egress_step, at_rest. simpl.
    unfold consume. rewrite Hbody. simpl.
    unfold spool_result, spool_put. simpl.
    reflexivity. }
  destruct Hmid as [log0 ->].
  apply publish_after_faults.
Qed.

(** The steps it takes from rest to publish the results of a queue of
    tasks when the broker fails the first [k] publishes. *)
Definition steps_for (k : nat) (tasks : list Task.t) : nat :=
  match tasks with
  | [] => 0
  | _ :: rest => 3 + (3 * k + 1) + 4 * length rest
  end.

Definition published_for (key : string) (tasks : list Task.t)
  : list (string * bytes) :=
  (fun t => (key, dumps (echo t))) <$> tasks.

Lemma tasks_through key tasks :
  (forall t, t ∈ tasks -> unpack (pack t) = Some t) ->
  forall published k log,
  exists k' log',
    run (steps_for k tasks) (at_rest (pack <$> tasks) published key k log) =
    at_rest [] (published ++ published_for key tasks) key k' log'.
Proof.
  induction tasks as [|t tasks IH]; intros Hcodec published k log.
  - exists k, log. simpl. now rewrite app_nil_r.
  - destruct (one_task_through (pack t) (pack <$> tasks) published key k log t)
      as [log1 Hone].
    { apply Hcodec, list_elem_of_here. }
    destruct (IH (fun t' Ht' => Hcodec t' (list_elem_of_further _ _ _ Ht'))
                 (published ++ [(key, dumps (echo t))]) 0 log1)
      as (k' & log' & Hrest).
    exists k', log'.
    change (steps_for k (t :: tasks)) with (3 + (3 * k + 1) + 4 * length tasks).
    change (pack <$> t :: tasks) with (pack t :: (pack <$> tasks)).
    rewrite run_add, Hone.
    replace (4 * length tasks) with (steps_for 0 tasks)
      by (destruct tasks; simpl; lia).
    rewrite Hrest. unfold published_for. simpl. now rewrite <- app_assoc.
Qed.

(** C1. The endpoint runs with the identity mock executor, and task
    messages are published to its task queue. Once it has connected,
    pumped the queue and retried the publishes the broker failed, the
    result queue holds one message per task, in order, and nothing else
    however long the endpoint runs on; the message of the task with
    [task_id] T and [task_buffer] B decodes to a [Result] whose
    [task_id] is T and whose [data] is B. *)
Theorem task_result_round_trip (tasks : list Task.t) (key : string) (k more : nat) :
  (forall t, t ∈ tasks -> unpack (pack t) = Some t) ->
  (forall t, t ∈ tasks -> loads (dumps (echo t)) = Some (echo t)) ->
  let final :=
    run (1 + (3 * k + 4 * length tasks) + more)
        (connected (pack <$> tasks) key k ∅) in
  result_queue final = published_for key tasks /\
  forall t, t ∈ tasks ->
    exists body r,
      (key, body) ∈ result_queue final /\
      loads body = Some r /\
      Result.task_id r = Task.task_id t /\
      Result.data r = Task.task_buffer t.
Proof.
  intros Hpack Hload final.
  assert (Hqueue : result_queue final = published_for key tasks).
  { unfold final. rewrite <- Nat.add_assoc, run_add. simpl run at 2.
    rewrite connected_at_rest.
    destruct (tasks_through key tasks Hpack [] k []) as (k' & log' & Hrun).
    replace (3 * k + 4 * length tasks + more)
      with (steps_for k tasks +
            (3 * k + 4 * length tasks + more - steps_for k tasks))
      by (destruct tasks; simpl; lia).
    rewrite run_add, Hrun, at_rest_idle by reflexivity. reflexivity. }
  split; [exact Hqueue|].
  intros t Ht. exists (dumps (echo t)), (echo t).
  split; [|split; [now apply Hload | split; reflexivity]].
  rewrite Hqueue. unfold published_for.
  apply (list_elem_of_fmap_2 (fun t => (key, dumps (echo t)))). exact Ht.
Qed.

(** ** Spool replay *)

(** A running interchange that has only its pipeline to publish, on a
    broker that confirms. *)
Definition replaying (key : string) (l : list string) (files : gmap string bytes)
    (published : list (string * bytes)) (log : list event) : interchange := {|
  state := Running; task_queue := []; result_queue := published;
  faults := 0; routing_key := key; exec := mock_executor;
  spool := files; pipeline := l; drain_left := 30; trace := log;
|}.

Lemma replaying_step key t l files published log body :
  files !! t = Some body ->
  step (replaying key (t :: l) files published log) =
  replaying key l (delete t files) (published ++ [(key, body)])
            (log ++ [Published t body; Deleted t]).
Proof.
  intros Hbody. unfold step, egress_step, publish_head, replaying. simpl.
  rewrite Hbody. reflexivity.
Qed.

Lemma replay_pipeline key l :
  forall files published log,
    NoDup l ->
    (forall t, t ∈ l -> is_Some (files !! t)) ->
    exists files' published' log',
      run (length l) (replaying key l files published log) =
      replaying key [] files' published' log' /\
      (forall t, t ∈ l -> files' !! t = None) /\
      (forall t, t ∉ l -> files' !! t = files !! t) /\
      (forall t body, t ∈ l -> files !! t = Some body ->
         (key, body) ∈ published' /\
         exists before after,
           log' = before ++ Published t body :: Deleted t :: after) /\
      (exists more, published' = published ++ more) /\
      (exists more, log' = log ++ more).
Proof.
  induction l as [|t l IH]; intros files published log Hnodup Hknown.
  - exists files, published, log. simpl.
    split; [reflexivity|]. split; [intros t Ht; inversion Ht|].
    split; [reflexivity|]. split; [intros t body Ht; inversion Ht|].
    split; exists []; now rewrite app_nil_r.
  - apply NoDup_cons in Hnodup as [Hfresh Hnodup].
    destruct (Hknown t (list_elem_of_here _ _)) as [body Hbody].
    simpl run. rewrite (replaying_step key t l files published log body Hbody).
    destruct (IH (delete t files) (published ++ [(key, body)])
                 (log ++ [Published t body; Deleted t]) Hnodup)
      as (files' & published' & log' & Hrun & Hgone & Hkept & Hpub & Hq & Hlog).
    { intros t0 Ht0. rewrite lookup_delete_ne by (intros ->; contradiction).
      apply Hknown. now apply list_elem_of_further. }
    exists files', published', log'. split; [exact Hrun|].
    destruct Hq as [moreq ->]. destruct Hlog as [morel ->].
    split; [|split; [|split; [|split]]].
    + intros t0 Ht0. apply elem_of_cons in Ht0 as [->|Ht0]; [|now apply Hgone].
      rewrite Hkept by assumption. apply lookup_delete_eq.
    + intros t0 Ht0. apply not_elem_of_cons in Ht0 as [Hne Ht0].
      rewrite Hkept by assumption. now apply lookup_delete_ne.
    + intros t0 body0 Ht0 Hbody0. apply elem_of_cons in Ht0 as [->|Ht0].
      * assert (body0 = body) as -> by congruence. split.
        -- rewrite <- app_assoc. apply elem_of_app. right.
           apply list_elem_of_here.
        -- exists log, morel. now rewrite <- app_assoc.
      * apply Hpub; [assumption|].
        rewrite lookup_delete_ne by (intros ->; contradiction). exact Hbody0.
    + exists ((key, body) :: moreq). now rewrite <- app_assoc.
    + exists (Published t body :: Deleted t :: morel). now rewrite <- app_assoc.
Qed.

Lemma filter_all {A} (P : A -> Prop) `{forall x, Decision (P x)} (l : list A) :
  (forall x, P x) -> filter P l = l.
Proof.
  intros Hall. induction l as [|x l IH]; [reflexivity|].
  rewrite filter_cons_True by apply Hall. now rewrite IH.
Qed.

(** Every file found in the spool when the interchange starts is
    published with its bytes as they are, and it is deleted, after the
    publish; a step for the replay and one per file are enough when the
    broker confirms. *)
Lemma stored_results_replayed key files :
  let final := run (1 + length (iter_pending files)) (connected [] key 0 files) in
  forall t body, files !! t = Some body ->
    (key, body) ∈ result_queue final /\
    spool final !! t = None /\
    exists before after,
      trace final = before ++ Published t body :: Deleted t :: after.
Proof.
  intros final t body Hbody. unfold final. rewrite run_add.
  assert (Hfirst : run 1 (connected [] key 0 files) =
                   replaying key (iter_pending files) files [] []).
  { simpl. unfold step, connected, enter_running, schedule_pending, replaying.
    simpl. rewrite filter_all by (intros x Hx; inversion Hx). reflexivity. }
  rewrite Hfirst.
  assert (Hin : t ∈ iter_pending files).
  { unfold iter_pending. apply list_elem_of_fmap. exists (t, body).
    split; [reflexivity|]. now apply elem_of_map_to_list. }
  destruct (replay_pipeline key (iter_pending files) files [] [])
    as (files' & published' & log' & Hrun & Hgone & _ & Hpub & _).
  { apply NoDup_fst_map_to_list. }
  { intros t0 Ht0. unfold iter_pending in Ht0.
    apply list_elem_of_fmap in Ht0 as ([t1 b1] & -> & Ht1).
    apply elem_of_map_to_list in Ht1. simpl. eauto. }
  rewrite Hrun. simpl.
  destruct (Hpub t body Hin Hbody) as [Hq Htrace].
  split; [exact Hq|]. split; [now apply Hgone | exact Htrace].
Qed.

(** In every state, whatever the broker does: a step deletes a spool
    entry only together with the confirmed publish of that entry's
    bytes, and a publish that fails keeps the entry. *)
Lemma delete_only_after_publish (i : interchange) t :
  Deleted t ∈ drop (length (trace i)) (trace (step i)) ->
  exists body,
    spool i !! t = Some body /\ faults i = 0 /\
    trace (step i) = trace i ++ [Published t body; Deleted t] /\
    result_queue (step i) = result_queue i ++ [(routing_key i, body)].
Proof.
  assert (Hnone : forall l : list event, Deleted t ∈ drop (length l) l -> False).
  { intros l. rewrite drop_all. intros Hin. inversion Hin. }
  assert (Hegress : forall i' : interchange,
    egress_step i = Some i' ->
    Deleted t ∈ drop (length (trace i)) (trace i') ->
    exists body,
      spool i !! t = Some body /\ faults i = 0 /\
      trace i' = trace i ++ [Published t body; Deleted t] /\
      result_queue i' = result_queue i ++ [(routing_key i, body)]).
  { unfold egress_step. intros i' Heg Hin.
    destruct (pipeline i) as [|t0 rest].
    - destruct (next_result (exec i)) as [[r x]|].
      + injection Heg as <-. simpl in Hin. rewrite drop_app_length in Hin.
        apply list_elem_of_singleton in Hin. discriminate.
      + destruct (in_flight (exec i)); [discriminate|]. injection Heg as <-.
        now apply Hnone in Hin.
    - injection Heg as <-. unfold publish_head in *.
      destruct (spool i !! t0) as [body|] eqn:Hbody.
      + destruct (faults i) as [|k] eqn:Hfaults; simpl in *.
        * rewrite drop_app_length in Hin.
          apply elem_of_cons in Hin as [Heq|Hin]; [discriminate|].
          apply list_elem_of_singleton in Hin. injection Hin as ->.
          exists body. auto.
        * rewrite drop_app_length in Hin.
          apply list_elem_of_singleton in Hin. discriminate.
      + simpl in Hin. now apply Hnone in Hin. }
  unfold step. intros Hin.
  destruct (state i); simpl in Hin; try (now apply Hnone in Hin).
  - destruct (egress_step i) as [i'|] eqn:Heg; [now apply Hegress|].
    destruct (task_queue i) as [|body rest]; [now apply Hnone in Hin|].
    unfold consume in Hin. exfalso.
    destruct (unpack body); simpl in Hin; rewrite drop_app_length in Hin;
      repeat (apply elem_of_cons in Hin as [Heq|Hin]; [discriminate|]);
      inversion Hin.
  - destruct (drain_left i); [now apply Hnone in Hin|].
    destruct (egress_step i) as [i'|] eqn:Heg; [|now apply Hnone in Hin].
    simpl in *. now apply Hegress.
Qed.

(** ** Shutdown *)

Lemma stopped_stays n i : state i = Stopped -> run n i = i.
Proof.
  revert i. induction n as [|n IH]; intros i Hs; simpl; [reflexivity|].
  assert (Hstep : step i = i) by (unfold step; now rewrite Hs).
  rewrite Hstep. now apply IH.
Qed.

Lemma egress_keeps_draining i i' :
  state i = Draining -> egress_step i = Some i' -> state i' = Draining.
Proof.
  unfold egress_step. intros Hs Heg.
  destruct (pipeline i) as [|t rest].
  - destruct (next_result (exec i)) as [[r x]|].
    + now injection Heg as <-.
    + destruct (in_flight (exec i)); [discriminate|]. now injection Heg as <-.
  - injection Heg as <-. unfold publish_head.
    destruct (spool i !! t); [|exact Hs].
    destruct (faults i); simpl; [exact Hs | now rewrite Hs].
Qed.

Lemma egress_keeps_deadline i i' :
  egress_step i = Some i' -> drain_left i' = drain_left i.
Proof.
  unfold egress_step. intros Heg.
  destruct (pipeline i) as [|t rest].
  - destruct (next_result (exec i)) as [[r x]|].
    + now injection Heg as <-.
    + destruct (in_flight (exec i)); [discriminate|]. now injection Heg as <-.
  - injection Heg as <-. unfold publish_head.
    destruct (spool i !! t); [|reflexivity].
    destruct (faults i); reflexivity.
Qed.

(** A draining interchange stops: when nothing is left to publish, or
    when its deadline, counted in steps, has passed. *)
Lemma draining_stops n :
  forall i, state i = Draining -> drain_left i <= n ->
            state (run (S n) i) = Stopped.
Proof.
  induction n as [|n IH]; intros i Hs Hleft.
  - simpl. unfold step. rewrite Hs.
    destruct (drain_left i) eqn:Hd; [reflexivity | lia].
  - change (run (S (S n)) i) with (run (S n) (step i)).
    unfold step. rewrite Hs.
    destruct (drain_left i) as [|d] eqn:Hd.
    + now rewrite stopped_stays.
    + destruct (egress_step i) as [i'|] eqn:Heg.
      * apply IH.
        -- simpl. now apply (egress_keeps_draining i).
        -- simpl. rewrite (egress_keeps_deadline i i' Heg), Hd. simpl. lia.
      * now rewrite stopped_stays.
Qed.

(** [SIGTERM] on a running interchange: it drains, then stops; at rest
    it stops at once. *)
Lemma terminate_stops i :
  state i = Running ->
  state (terminate i) = Draining /\
  state (run (S (drain_left i)) (terminate i)) = Stopped.
Proof.
  intros Hs. unfold terminate. rewrite Hs. split; [reflexivity|].
  now apply draining_stops.
Qed.

End RoundTrip.

(** ** A concrete wire format and the round trip of one task *)

(** Two fields separated by the first bar. *)
Fixpoint split_bar (s : string) : option (string * string) :=
  match s with
  | EmptyString => None
  | String c s' =>
      if Ascii.eqb c "|"%char then Some (EmptyString, s')
      else
        match split_bar s' with
        | Some (a, b) => Some (String c a, b)
        | None => None
        end
  end.

Definition bar_codec : Codec := {|
  pack := fun t => (Task.task_id t ++ "|" ++ Task.task_buffer t)%string;
  unpack := fun body =>
    match split_bar body with
    | Some (a, b) => Some {| Task.task_id := a; Task.task_buffer := b |}
    | None => None
    end;
  dumps := fun r => (Result.task_id r ++ "|" ++ Result.data r)%string;
  loads := fun body =>
    match split_bar body with
    | Some (a, b) => Some {| Result.task_id := a; Result.data := b |}
    | None => None
    end;
|}.

Definition canary : Task.t :=
  {| Task.task_id := "6ec0bd7f-11c0-43da-975e-2a8ad9ebae0b";
     Task.task_buffer := "abc" |}.

(** The canary task of the integration test, on a broker that fails the
    first publish. *)
Lemma task_result_round_trip_witness :
  let final :=
    run (H := bar_codec) (1 + (3 * 1 + 4 * length [canary]) + 0)
        (connected (H := bar_codec) (pack (Codec := bar_codec) <$> [canary])
                   "result" 1 ∅) in
  result_queue final = published_for (H := bar_codec) "result" [canary] /\
  forall t, t ∈ [canary] ->
    exists body r,
      ("result", body) ∈ result_queue final /\
      loads (Codec := bar_codec) body = Some r /\
      Result.task_id r = Task.task_id t /\
      Result.data r = Task.task_buffer t.
Proof.
  apply (task_result_round_trip (H := bar_codec) [canary] "result" 1 0).
  - intros t Ht. apply list_elem_of_singleton in Ht as ->. reflexivity.
  - intros t Ht. apply list_elem_of_singleton in Ht as ->. reflexivity.
Defined.

Example canary_published :
  result_queue
    (run (H := bar_codec) 8 (connected (H := bar_codec) ["T|abc"] "result" 1 ∅))
  = [("result", "T|abc")].
Proof. vm_compute. reflexivity. Qed.

End Interchange.

(* ===================================================================== *)
(** * Starting an endpoint                                                *)
(* ===================================================================== *)

Module Startup.
Import Py Monad MonadFacts Client.

(** Modelled from the spec: the endpoint directory (the endpoint's
    startup code is not among the sources). [daemon.lock] names the
    process that owns the directory, [endpoint.json] is the last
    registration record, [unacked_results/] is the result spool. *)
Record endpoint_dir : Type := {
  daemon_lock : option nat;
  endpoint_json : option value;
  unacked_results : gmap string Interchange.bytes;
}.

Definition lock (pid : nat) (d : endpoint_dir) : endpoint_dir :=
  {| daemon_lock := Some pid; endpoint_json := endpoint_json d;
     unacked_results := unacked_results d |}.

Definition unlock (d : endpoint_dir) : endpoint_dir :=
  {| daemon_lock := None; endpoint_json := endpoint_json d;
     unacked_results := unacked_results d |}.

Definition remember (record : value) (d : endpoint_dir) : endpoint_dir :=
  {| daemon_lock := daemon_lock d; endpoint_json := Some record;
     unacked_results := unacked_results d |}.

(** Modelled from the spec: the exit codes of the endpoint process. *)
Definition clean_shutdown : Z := 0.
Definition unhandled : Z := 1.
Definition configuration_error : Z := 2.
Definition registration_or_version_mismatch : Z := 3.
Definition lock_contention : Z := 4.

(** How a start ends: the process exits, or it holds a registration
    record and goes on to connect. *)
Inductive started : Type :=
| Exited (code : Z)
| Registered (record : value).

Definition exit_code_of (e : exn) : Z :=
  match e with
  | VersionMismatch _ _ _ => registration_or_version_mismatch
  | ServiceError _ => registration_or_version_mismatch
  | _ => unhandled
  end.

Section Handshake.
Context `{Collaborators}.

(** Modelled from the spec: the registration handshake. The endpoint
    checks its version against the service's [GET /version], then
    registers with its UUID, metadata and version; a failure of the
    service is tried again while [retries] last, a version mismatch is
    fatal at once. *)
Fixpoint handshake (retries : nat) (name endpoint_id : string) (metadata : value)
    (running_version : string) : M state value :=
  try_except
    (version_check (Some running_version) ;;;
     register_endpoint name endpoint_id metadata (Some running_version))
    (fun e =>
       match e, retries with
       | ServiceError _, S n => handshake n name endpoint_id metadata running_version
       | _, _ => raise e
       end).

(** Modelled from the spec: the start of the endpoint process. The lock
    of the directory is taken unless a live process owns it; the
    handshake follows; when it fails the lock is given back and the
    process exits with the code of the failure. *)
Definition start_endpoint (pid : nat) (alive : nat -> bool) (retries : nat)
    (name endpoint_id : string) (metadata : value) (running_version : string)
    (dir : endpoint_dir) : M state (started * endpoint_dir) :=
  let held :=
    match daemon_lock dir with
    | Some owner => alive owner
    | None => false
    end in
  if held then ret (Exited lock_contention, dir)
  else
    try_except
      (record <- handshake retries name endpoint_id metadata running_version ;;
       ret (Registered record, remember record (lock pid dir)))
      (fun e => ret (Exited (exit_code_of e), unlock (lock pid dir))).

(** ** A version mismatch is fatal *)

Variable older : string -> value -> Prop.

(** What is known of [funcx.version.compare_versions]: it refuses a
    version older than the minimum, and it raises nothing but
    [VersionMismatch]. *)
Hypothesis compare_refuses_older :
  forall current min_version package_name,
    older current min_version ->
    compare_versions current min_version package_name =
    inl (VersionMismatch package_name current min_version).

Hypothesis compare_raises_mismatch :
  forall current min_version package_name e,
    compare_versions current min_version package_name = inl e ->
    e = VersionMismatch package_name current min_version.

Definition is_mismatch (e : exn) : bool :=
  match e with
  | VersionMismatch _ _ _ => true
  | _ => false
  end.

Lemma version_check_mismatch s data min_ep min_sdk v :
  on_get_version (svc (env s)) (requests (env s)) = inr data ->
  getitem data "min_ep_version" = inr min_ep ->
  getitem data "min_sdk_version" = inr min_sdk ->
  older v min_ep ->
  exists e, (version_check (Some v) s).1 = inl e /\ is_mismatch e = true.
Proof.
  intros Hdata Hep Hsdk Hold.
  destruct (ClientSpec.version_check_refuses_endpoint s data min_ep min_sdk v
              (VersionMismatch "funcx-endpoint" v min_ep) Hdata Hep Hsdk)
    as (e & Hraise & Hwhich).
  { now apply compare_refuses_older. }
  exists e. split; [exact Hraise|].
  destruct Hwhich as [-> | Hsdk_raise]; [reflexivity|].
  apply compare_raises_mismatch in Hsdk_raise. now rewrite Hsdk_raise.
Qed.

Lemma handshake_mismatch retries name endpoint_id metadata v s e :
  (version_check (Some v) s).1 = inl e ->
  is_mismatch e = true ->
  handshake retries name endpoint_id metadata v s =
  (inl e, (version_check (Some v) s).2).
Proof.
  intros Hraise Hmis.
  destruct (version_check (Some v) s) as [o s1] eqn:Hcheck. simpl in *. subst o.
  destruct retries; simpl; unfold try_except, bind; rewrite Hcheck;
    destruct e; try discriminate; reflexivity.
Qed.

(** C5. When the [GET /version] response carries a [min_ep_version]
    that the endpoint's running version is older than, the version
    check, given the endpoint's version, raises a version mismatch, and
    the start is aborted: the process exits with code 3 and the lock of
    the directory is not left behind. *)
Theorem version_mismatch_aborts_startup
    s data min_ep min_sdk running_version pid alive retries name endpoint_id
    metadata dir :
  on_get_version (svc (env s)) (requests (env s)) = inr data ->
  getitem data "min_ep_version" = inr min_ep ->
  getitem data "min_sdk_version" = inr min_sdk ->
  older running_version min_ep ->
  match daemon_lock dir with Some owner => alive owner = false | None => True end ->
  (exists e, (version_check (Some running_version) s).1 = inl e /\
             is_mismatch e = true) /\
  exists dir',
    (start_endpoint pid alive retries name endpoint_id metadata running_version
       dir s).1 = inr (Exited 3, dir') /\
    daemon_lock dir' = None.
Proof.
  intros Hdata Hep Hsdk Hold Hfree.
  destruct (version_check_mismatch s data min_ep min_sdk running_version
              Hdata Hep Hsdk Hold) as (e & Hraise & Hmis).
  split; [now exists e|].
  exists (unlock (lock pid dir)). split; [|reflexivity].
  unfold start_endpoint.
  replace (match daemon_lock dir with Some owner => alive owner | None => false end)
    with false
    by (destruct (daemon_lock dir); [now rewrite Hfree | reflexivity]).
  unfold try_except, bind.
  rewrite (handshake_mismatch retries name endpoint_id metadata running_version
             s e Hraise Hmis).
  unfold ret. simpl. destruct e; try discriminate. reflexivity.
Qed.

End Handshake.

(** ** The version-mismatch scenario *)

#[local] Existing Instance Sample.collaborators.

Lemma sample_refuses_older current min_version package_name :
  Sample.older current min_version = true ->
  Sample.sample_compare_versions current min_version package_name =
  inl (VersionMismatch package_name current min_version).
Proof. unfold Sample.sample_compare_versions. now intros ->. Qed.

Lemma sample_raises_mismatch current min_version package_name e :
  Sample.sample_compare_versions current min_version package_name = inl e ->
  e = VersionMismatch package_name current min_version.
Proof.
  unfold Sample.sample_compare_versions.
  destruct (Sample.older current min_version); [now intros [= <-] | discriminate].
Qed.

Definition empty_dir : endpoint_dir :=
  {| daemon_lock := None; endpoint_json := None; unacked_results := ∅ |}.

Definition fresh_client (min_ep_version : string) : state :=
  {| self := Sample.blank; env := Sample.sample_world min_ep_version |}.

(** The service asks for endpoint version 99.0.0; the endpoint runs
    1.0.3. *)
Lemma version_mismatch_aborts_startup_witness :
  (exists e, (version_check (Some "1.0.3") (fresh_client "99.0.0")).1 = inl e /\
             is_mismatch e = true) /\
  exists dir',
    (start_endpoint 4242 (fun _ => true) 3 "endpoint_foo" "0000" VNone "1.0.3"
       empty_dir (fresh_client "99.0.0")).1 = inr (Exited 3, dir') /\
    daemon_lock dir' = None.
Proof.
  apply (version_mismatch_aborts_startup (H := Sample.collaborators)
           (fun current min_version => Sample.older current min_version = true)
           sample_refuses_older sample_raises_mismatch
           (fresh_client "99.0.0") (Sample.version_response "99.0.0")
           (VStr "99.0.0") (VStr "0.0.0")).
  - reflexivity.
  - vm_compute. reflexivity.
  - vm_compute. reflexivity.
  - vm_compute. reflexivity.
  - exact I.
Defined.

(** With a service that accepts the version, the same start registers
    and keeps the lock. *)
Example compatible_version_registers :
  (start_endpoint 4242 (fun _ => true) 3 "endpoint_foo" "0000" VNone "1.0.3"
     empty_dir (fresh_client "0.0.0")).1 =
  inr (Registered (VDict ∅),
       {| daemon_lock := Some 4242; endpoint_json := Some (VDict ∅);
          unacked_results := ∅ |}).
Proof. vm_compute. reflexivity. Qed.

End Startup.

(* ===================================================================== *)
(** * More of the client: what its methods keep, send and return          *)
(* ===================================================================== *)

Module ClientMore.
Import Py Monad MonadFacts Client ClientSpec.

Lemma lower_ascii_idempotent c : lower_ascii (lower_ascii c) = lower_ascii c.
Proof. destruct c as [[] [] [] [] [] [] [] []]; reflexivity. Qed.

Lemma lower_idempotent s : lower (lower s) = lower s.
Proof.
  induction s as [|c s IH]; simpl; [reflexivity|].
  now rewrite lower_ascii_idempotent, IH.
Qed.

Section More.
Context `{Collaborators}.

Abbreviation table_of s := (_task_status_table (self s)).

(** ** The shape of the entries of [_task_status_table] *)

(** An entry as [_update_task_table] writes them: the status is in lower
    case, [pending] says that it is neither ["success"] nor ["failed"],
    and a result with its completion time is there exactly when the
    entry is not pending. *)
Definition entry_ok (e : task_status) : Prop :=
  lower (status e) = status e /\
  pending e = negb (finished (status e)) /\
  (pending e = true -> completed e = None) /\
  (pending e = false -> is_Some (completed e)).

Definition table_ok (s : state) : Prop :=
  forall task_id e, table_of s !! task_id = Some e -> entry_ok e.

Lemma str_lower_is_lower v r : str_lower v = inr r -> lower r = r.
Proof.
  destruct v; simpl; try discriminate. intros [= <-]. apply lower_idempotent.
Qed.

(** [_update_task_table] is a parse followed by one write; what the parse
    gives depends on the message alone, and what is written is well
    formed. *)
Lemma update_task_table_writes_ok (return_msg : value) :
  exists o : outcome task_status,
    (forall task_id s,
       _update_task_table return_msg task_id s =
       match o with
       | inl e => (inl e, s)
       | inr st => (inr st, set_table (insert task_id st) s)
       end) /\
    (forall st, o = inr st -> entry_ok st).
Proof.
  unfold _update_task_table, bind, lift, raise, ret, modify.
  repeat case_scrutinee;
    match goal with
    | |- exists o, (forall t s, (?r, _) = _) /\ _ =>
        exists r; split; [intros ? ?; reflexivity|]
    end;
    intros st Hst; try discriminate; injection Hst as <-;
    match goal with
    | Hl : str_lower _ = inr _ |- _ => apply str_lower_is_lower in Hl
    end;
    unfold entry_ok, finished; simpl;
    repeat split; auto; try discriminate; try congruence; eauto.
Qed.

Lemma update_task_table_returns_ok return_msg task_id s st s' :
  _update_task_table return_msg task_id s = (inr st, s') -> entry_ok st.
Proof.
  destruct (update_task_table_writes_ok return_msg) as ([e|st0] & Ho & Hok);
    rewrite Ho; intros Hret; [discriminate|].
  injection Hret as <- _. now apply Hok.
Qed.

(** What [_update_task_table] makes of a message does not depend on the
    client it is called on. *)
Lemma update_task_table_outcome return_msg task_id s task_id' s' :
  (_update_task_table return_msg task_id s).1 =
  (_update_task_table return_msg task_id' s').1.
Proof.
  destruct (update_task_table_writes_ok return_msg) as ([e|st0] & Ho & _);
    now rewrite !Ho.
Qed.

(** ** What no method changes *)

(** The service, the random source and the login are not the client's
    to change. *)
Definition same_service (s s' : state) : Prop :=
  svc (env s') = svc (env s) /\ urandom (env s') = urandom (env s) /\
  draws (env s') = draws (env s) /\ login_flow (env s') = login_flow (env s).

(** The attributes set once by [__init__]; the polling task stays where
    it is, whatever is added to it. *)
Definition same_settings (s s' : state) : Prop :=
  funcx_home (self s') = funcx_home (self s) /\
  session_task_group_id (self s') = session_task_group_id (self s) /\
  funcx_service_address (self s') = funcx_service_address (self s) /\
  results_ws_uri (self s') = results_ws_uri (self s) /\
  asynchronous (self s') = asynchronous (self s) /\
  loop (self s') = loop (self s) /\
  (is_Some (ws_polling_task (self s')) <-> is_Some (ws_polling_task (self s))).

(** From [s] to [s']: requests are added to the log and none is taken
    back, the service and the settings are the same, and a well-formed
    table stays well formed. *)
Definition kept (s s' : state) : Prop :=
  same_service s s' /\ same_settings s s' /\
  (exists more, requests (env s') = (requests (env s) ++ more)%list) /\
  (table_ok s -> table_ok s').

Lemma same_service_refl s : same_service s s.
Proof. repeat split. Qed.

Lemma same_service_trans s s1 s2 :
  same_service s s1 -> same_service s1 s2 -> same_service s s2.
Proof. unfold same_service. intuition congruence. Qed.

Lemma same_settings_refl s : same_settings s s.
Proof. repeat split; auto. Qed.

Lemma same_settings_trans s s1 s2 :
  same_settings s s1 -> same_settings s1 s2 -> same_settings s s2.
Proof. unfold same_settings. intuition congruence. Qed.

Lemma kept_refl s : kept s s.
Proof.
  split; [apply same_service_refl|]. split; [apply same_settings_refl|].
  split; [exists []; now rewrite app_nil_r | auto].
Qed.

Lemma kept_trans s s1 s2 : kept s s1 -> kept s1 s2 -> kept s s2.
Proof.
  intros (Hs1 & Hc1 & (m1 & Hr1) & Ht1) (Hs2 & Hc2 & (m2 & Hr2) & Ht2).
  split; [eapply same_service_trans; eassumption|].
  split; [eapply same_settings_trans; eassumption|].
  split; [|auto].
  exists (m1 ++ m2)%list. now rewrite Hr2, Hr1, app_assoc.
Qed.

Lemma same_settings_self s s' : self s' = self s -> same_settings s s'.
Proof. intros Hself. unfold same_settings. rewrite Hself. repeat split; auto. Qed.

(** Logging a request or a record. *)
Lemma kept_request r s :
  kept s {| self := self s; env := record_request r (env s) |}.
Proof.
  split; [repeat split|]. split; [now apply same_settings_self|].
  split; [now exists [r] | auto].
Qed.

Lemma kept_log l s :
  kept s {| self := self s; env := record_log l (env s) |}.
Proof.
  split; [repeat split|]. split; [now apply same_settings_self|].
  split; [exists []; simpl; now rewrite app_nil_r | auto].
Qed.

(** Writing a well-formed entry. *)
Lemma kept_write task_id st s :
  entry_ok st -> kept s (set_table (insert task_id st) s).
Proof.
  intros Hok. split; [repeat split|]. split; [repeat split; auto|].
  split; [exists []; simpl; now rewrite app_nil_r|].
  intros Htable t e. simpl. destruct (decide (t = task_id)) as [->|Hne].
  - rewrite lookup_insert_eq. intros [= <-]. exact Hok.
  - rewrite lookup_insert_ne by congruence. apply Htable.
Qed.

Lemma update_task_table_kept return_msg task_id s :
  kept s (_update_task_table return_msg task_id s).2.
Proof.
  destruct (update_task_table_writes_ok return_msg) as ([e|st] & Ho & Hok);
    rewrite Ho; simpl.
  - apply kept_refl.
  - apply kept_write. now apply Hok.
Qed.

(** ** [get_task] *)

(** The state in which [get_task] reads the response. *)
Definition asked (task_id : string) (s : state) : state :=
  {| self := self s;
     env := record_log (Log "DEBUG" "Response string : {r}")
              (record_request (GetTask task_id) (env s)) |}.

Lemma refresh_task_spec task_id s :
  refresh_task task_id s =
  match on_get_task (svc (env s)) (requests (env s)) task_id with
  | inl e =>
      (inl e, {| self := self s; env := record_request (GetTask task_id) (env s) |})
  | inr text => _update_task_table (VStr text) task_id (asked task_id s)
  end.
Proof.
  unfold refresh_task, bind, on_world, call, emit, modify. simpl.
  now destruct (on_get_task (svc (env s)) (requests (env s)) task_id).
Qed.

Lemma get_task_not_cached task_id s :
  entry_pending (table_of s !! task_id) = true ->
  get_task task_id s = refresh_task task_id s.
Proof.
  unfold get_task, bind, gets. simpl.
  destruct (table_of s !! task_id) as [e|]; simpl; [|reflexivity].
  now intros ->.
Qed.

Lemma get_task_is_cached task_id s :
  entry_pending (table_of s !! task_id) = false ->
  exists e, table_of s !! task_id = Some e /\ pending e = false /\
            get_task task_id s = (inr e, s).
Proof.
  unfold get_task, bind, gets. simpl.
  destruct (table_of s !! task_id) as [e|]; simpl; [|discriminate].
  intros Hp. rewrite Hp. exists e. auto.
Qed.

(** The requests [get_task] sends: one for a task that is not known to
    be finished, none otherwise. *)
Definition get_task_requests (task_id : string) (s : state) : list request :=
  if entry_pending (table_of s !! task_id) then [GetTask task_id] else [].

Lemma get_task_effect task_id s :
  let s' := (get_task task_id s).2 in
  requests (env s') = (requests (env s) ++ get_task_requests task_id s)%list /\
  (forall other, other <> task_id -> table_of s' !! other = table_of s !! other).
Proof.
  cbv zeta. unfold get_task_requests.
  destruct (entry_pending (table_of s !! task_id)) eqn:Hp.
  - rewrite (get_task_not_cached task_id s Hp), refresh_task_spec.
    destruct (on_get_task (svc (env s)) (requests (env s)) task_id) as [e|text].
    + simpl. split; reflexivity.
    + rewrite update_task_table_env. split; [reflexivity|].
      intros other Hne. now rewrite update_task_table_other.
  - destruct (get_task_is_cached task_id s Hp) as (e & _ & _ & ->). simpl.
    rewrite app_nil_r. split; reflexivity.
Qed.

Lemma get_task_kept task_id s : kept s (get_task task_id s).2.
Proof.
  destruct (entry_pending (table_of s !! task_id)) eqn:Hp.
  - rewrite (get_task_not_cached task_id s Hp), refresh_task_spec.
    destruct (on_get_task (svc (env s)) (requests (env s)) task_id) as [e|text].
    + apply kept_request.
    + eapply kept_trans; [|apply update_task_table_kept].
      eapply kept_trans; [apply kept_request|]. apply (kept_log _ (Build_state _ _)).
  - destruct (get_task_is_cached task_id s Hp) as (e & _ & _ & ->).
    apply kept_refl.
Qed.

(** X1. Whatever the service answers and however the call ends,
    [get_task] sends one [GET] for the task when the table does not hold
    a finished entry for it and nothing when it does, and it changes no
    entry of the table but the task's own. *)
Theorem get_task_footprint task_id s :
  requests (env (get_task task_id s).2) =
    (requests (env s) ++
     if entry_pending (table_of s !! task_id) then [GetTask task_id] else [])%list /\
  forall other, other <> task_id ->
    table_of (get_task task_id s).2 !! other = table_of s !! other.
Proof. exact (get_task_effect task_id s). Qed.

(** What [get_task] returned is what the table holds afterwards, and it
    is well formed when the table was. *)
Lemma get_task_returns_entry task_id s e s' :
  get_task task_id s = (inr e, s') -> table_of s' !! task_id = Some e.
Proof.
  destruct (entry_pending (table_of s !! task_id)) eqn:Hp.
  - rewrite (get_task_not_cached task_id s Hp), refresh_task_spec.
    destruct (on_get_task (svc (env s)) (requests (env s)) task_id) as [e0|text];
      [discriminate|].
    intros Hret. apply update_task_table_return_writes in Hret as ->. simpl.
    apply lookup_insert_eq.
  - destruct (get_task_is_cached task_id s Hp) as (e0 & Hentry & _ & ->).
    now intros [= <- <-].
Qed.

(** X2. Two calls of [get_task] in a row: when the first returned a
    status that is not pending, the second returns the same status
    without a request and without any change; when the first returned a
    pending status, the second asks the service again. *)
Theorem get_task_twice task_id s e s' :
  get_task task_id s = (inr e, s') ->
  (pending e = false -> get_task task_id s' = (inr e, s')) /\
  (pending e = true ->
     requests (env (get_task task_id s').2) =
       (requests (env s') ++ [GetTask task_id])%list).
Proof.
  intros Hfirst. pose proof (get_task_returns_entry task_id s e s' Hfirst) as Hentry.
  split; intros Hp.
  - now apply get_task_cached.
  - destruct (get_task_effect task_id s') as (Hreq & _).
    rewrite Hreq. unfold get_task_requests. now rewrite Hentry; simpl; rewrite Hp.
Qed.

(** ** Failed tasks *)

(** A response text that reports a task as finished with an exception
    and without a result. *)
Definition reports_failure (text : string) (exc completion_t : value) : Prop :=
  exists d st,
    json_loads text = inr (VDict d) /\
    d !! "status" = Some (VStr st) /\ finished (lower st) = true /\
    d !! "result" = None /\ d !! "exception" = Some exc /\
    d !! "completion_t" = Some completion_t.

Lemma get_task_failed task_id s text exc completion_t :
  entry_pending (table_of s !! task_id) = true ->
  on_get_task (svc (env s)) (requests (env s)) task_id = inr text ->
  reports_failure text exc completion_t ->
  get_task task_id s =
  (inl (FuncxTaskExecutionFailed exc completion_t), asked task_id s).
Proof.
  intros Hp Hanswer (d & st & Hjson & Hst & Hfin & Hres & Hexc & Ht).
  rewrite (get_task_not_cached task_id s Hp), refresh_task_spec, Hanswer.
  now apply (update_task_table_exception (VStr text) task_id _ d st).
Qed.

Lemma get_result_raises task_id s e s' :
  get_task task_id s = (inl e, s') -> get_result task_id s = (inl e, s').
Proof. intros Hget. unfold get_result, bind. now rewrite Hget. Qed.

(** X3. A failure is never cached. When the service reports the task
    as finished with an exception, [get_task] raises
    [FuncxTaskExecutionFailed] and leaves the table as it was, so the
    next call asks the service again: after [n] calls, [n] requests have
    been sent for the task, and the call after them, as well as
    [get_result], raises the same error. *)
Theorem failed_task_is_asked_again task_id s text exc completion_t n :
  entry_pending (table_of s !! task_id) = true ->
  (forall history, on_get_task (svc (env s)) history task_id = inr text) ->
  reports_failure text exc completion_t ->
  let s_n := Nat.iter n (fun st => (get_task task_id st).2) s in
  (get_task task_id s_n).1 = inl (FuncxTaskExecutionFailed exc completion_t) /\
  (get_result task_id s_n).1 = inl (FuncxTaskExecutionFailed exc completion_t) /\
  requests (env s_n) = (requests (env s) ++ repeat (GetTask task_id) n)%list /\
  table_of s_n = table_of s.
Proof.
  intros Hp Hanswer Hfail. cbv zeta.
  assert (Hinv : self (Nat.iter n (fun st => (get_task task_id st).2) s) = self s /\
                 svc (env (Nat.iter n (fun st => (get_task task_id st).2) s)) =
                   svc (env s) /\
                 requests (env (Nat.iter n (fun st => (get_task task_id st).2) s)) =
                   (requests (env s) ++ repeat (GetTask task_id) n)%list).
  { induction n as [|n (Hself & Hsvc & Hreq)]; simpl.
    - rewrite app_nil_r. auto.
    - rewrite (get_task_failed task_id _ text exc completion_t); simpl.
      + rewrite Hreq, repeat_cons, app_assoc. auto.
      + now rewrite Hself.
      + rewrite Hsvc. apply Hanswer.
      + exact Hfail. }
  destruct Hinv as (Hself & Hsvc & Hreq).
  assert (Hget : get_task task_id (Nat.iter n (fun st => (get_task task_id st).2) s) =
                 (inl (FuncxTaskExecutionFailed exc completion_t),
                  asked task_id (Nat.iter n (fun st => (get_task task_id st).2) s))).
  { apply (get_task_failed task_id _ text).
    - now rewrite Hself.
    - rewrite Hsvc. apply Hanswer.
    - exact Hfail. }
  split; [now rewrite Hget|].
  split; [now rewrite (get_result_raises _ _ _ _ Hget)|].
  split; [exact Hreq | now rewrite Hself].
Qed.

(** ** [get_result] *)

Lemma get_result_state task_id s : (get_result task_id s).2 = (get_task task_id s).2.
Proof.
  unfold get_result, bind.
  destruct (get_task task_id s) as [[e|st] s']; [reflexivity|].
  destruct (pending st); [reflexivity|].
  now destruct (completed st) as [[r t]|].
Qed.

(** On a well-formed table, what [get_task] returns is well formed. *)
Lemma get_task_returns_ok task_id s st s' :
  table_ok s -> get_task task_id s = (inr st, s') -> entry_ok st.
Proof.
  intros Hok Hget. pose proof (get_task_kept task_id s) as (_ & _ & _ & Hkept).
  rewrite Hget in Hkept. simpl in Hkept.
  apply (Hkept Hok task_id). now apply (get_task_returns_entry task_id s).
Qed.

Lemma get_result_on_table_ok task_id s :
  table_ok s ->
  match get_task task_id s with
  | (inl e, s') => get_result task_id s = (inl e, s')
  | (inr st, s') =>
      if pending st
      then get_result task_id s = (inl (TaskPending (status st)), s') /\
           finished (status st) = false
      else exists r completion_t,
             completed st = Some (r, completion_t) /\
             get_result task_id s = (inr r, s') /\
             finished (status st) = true
  end.
Proof.
  intros Hok. destruct (get_task task_id s) as [[e|st] s'] eqn:Hget.
  - now apply get_result_raises.
  - destruct (get_task_returns_ok task_id s st s' Hok Hget) as (_ & Hp & _ & Hsome).
    unfold get_result, bind. rewrite Hget.
    destruct (pending st).
    + split; [reflexivity|]. now destruct (finished (status st)).
    + destruct (Hsome eq_refl) as [[r t] Hc]. exists r, t. rewrite Hc.
      repeat split. now destruct (finished (status st)).
Qed.

(** ** [get_batch_result] *)

(** What the loop of [get_batch_result] makes of the response [r] for an
    id that was sent: the status that [_update_task_table] reads from
    [r["results"][task_id]], or nothing when that entry is missing or
    when reading it raises. *)
Definition report (r : value) (task_id : string) (s : state) : option task_status :=
  match getitem r "results" with
  | inr all =>
      match getitem all task_id with
      | inr data =>
          match (_update_task_table data task_id s).1 with
          | inr st => Some st
          | inl _ => None
          end
      | inl _ => None
      end
  | inl _ => None
  end.

Lemma report_same r task_id s s' : report r task_id s = report r task_id s'.
Proof.
  unfold report. destruct (getitem r "results") as [|all]; [reflexivity|].
  destruct (getitem all task_id) as [|data]; [reflexivity|].
  now rewrite (update_task_table_outcome data task_id s task_id s').
Qed.

(** The reported status if there is one, the old entry otherwise. *)
Definition answer_or (o old : option task_status) : option task_status :=
  match o with
  | Some st => Some st
  | None => old
  end.

Definition with_report (o : option task_status) (task_id : string)
    (m : gmap string task_status) : gmap string task_status :=
  match o with
  | Some st => <[task_id := st]> m
  | None => m
  end.

Lemma lookup_with_report_eq o task_id m :
  with_report o task_id m !! task_id = answer_or o (m !! task_id).
Proof. destruct o; simpl; [apply lookup_insert_eq | reflexivity]. Qed.

Lemma lookup_with_report_ne o task_id m t :
  t <> task_id -> with_report o task_id m !! t = m !! t.
Proof.
  intros Hne. destruct o; simpl; [|reflexivity].
  now rewrite lookup_insert_ne by congruence.
Qed.

Lemma answer_or_twice o old : answer_or o (answer_or o old) = answer_or o old.
Proof. now destruct o. Qed.

(** One turn of the loop on an id that was sent to the service. *)
Lemma batch_result_step_sent pend r task_id results s :
  task_id ∈ pend ->
  exists s',
    batch_result_step pend r task_id results s =
      (inr (with_report (report r task_id s) task_id results), s') /\
    table_of s' = with_report (report r task_id s) task_id (table_of s) /\
    requests (env s') = requests (env s) /\
    kept s s'.
Proof.
  intros Hin. unfold batch_result_step, report.
  rewrite (bool_decide_eq_true_2 _ Hin).
  unfold try_except, bind, lift.
  destruct (getitem r "results") as [e|all].
  { destruct e; simpl; eexists; (split; [reflexivity|]);
      (split; [reflexivity|]); (split; [reflexivity|]); apply kept_log. }
  destruct (getitem all task_id) as [e|data].
  { destruct e; simpl; eexists; (split; [reflexivity|]);
      (split; [reflexivity|]); (split; [reflexivity|]); apply kept_log. }
  destruct (update_task_table_writes_ok data) as ([e|st] & Ho & Hok);
    rewrite Ho.
  - destruct e; simpl; eexists; (split; [reflexivity|]);
      (split; [reflexivity|]); (split; [reflexivity|]); apply kept_log.
  - simpl. eexists. split; [reflexivity|]. split; [reflexivity|].
    split; [reflexivity|]. apply kept_write. now apply Hok.
Qed.

(** The whole loop. It never raises; the ids in [pend] get what the
    response reports for them, in the table and in the results, and the
    others are answered from the table, which keeps their entries. *)
Lemma batch_result_loop_spec pend r task_id_list :
  forall results s,
    (forall t, t ∈ task_id_list -> t ∉ pend -> is_Some (table_of s !! t)) ->
    exists results' s',
      batch_result_loop pend r task_id_list results s = (inr results', s') /\
      requests (env s') = requests (env s) /\
      kept s s' /\
      (forall t, t ∈ task_id_list -> t ∈ pend ->
         table_of s' !! t = answer_or (report r t s) (table_of s !! t) /\
         results' !! t = answer_or (report r t s) (results !! t)) /\
      (forall t, t ∈ task_id_list -> t ∉ pend -> results' !! t = table_of s !! t) /\
      (forall t, (t ∉ task_id_list) \/ (t ∉ pend) ->
         table_of s' !! t = table_of s !! t) /\
      (forall t, t ∉ task_id_list -> results' !! t = results !! t).
Proof.
  induction task_id_list as [|t0 rest IH]; intros results s Hknown.
  - exists results, s. simpl. unfold ret.
    split; [reflexivity|]. split; [reflexivity|]. split; [apply kept_refl|].
    split; [intros t Ht; inversion Ht|]. split; [intros t Ht; inversion Ht|].
    split; reflexivity.
  - simpl. unfold bind.
    destruct (decide (t0 ∈ pend)) as [Hin|Hnot].
    + destruct (batch_result_step_sent pend r t0 results s Hin)
        as (s1 & Hstep & Htab1 & Hreq1 & Hkept1).
      rewrite Hstep.
      assert (Hother : forall t, t <> t0 -> table_of s1 !! t = table_of s !! t).
      { intros t Hne. rewrite Htab1. now apply lookup_with_report_ne. }
      destruct (IH (with_report (report r t0 s) t0 results) s1)
        as (results' & s' & Hloop & Hreq & Hkept & Ha & Hb & Hc & Hd).
      { intros t Ht Hnp. rewrite Hother by (intros ->; contradiction).
        apply Hknown; [now apply list_elem_of_further | assumption]. }
      exists results', s'. split; [exact Hloop|]. split; [congruence|].
      split; [now apply (kept_trans s s1 s')|].
      split; [|split; [|split]].
      * intros t Ht Hp. destruct (decide (t ∈ rest)) as [Hr|Hr].
        -- destruct (Ha t Hr Hp) as [Hta Hra].
           rewrite Hta, Hra, (report_same r t s1 s).
           destruct (decide (t = t0)) as [->|Hne].
           ++ rewrite Htab1, !lookup_with_report_eq, !answer_or_twice. auto.
           ++ rewrite Hother by assumption.
              now rewrite lookup_with_report_ne by assumption.
        -- apply elem_of_cons in Ht as [->|Ht]; [|contradiction].
           rewrite (Hc t0) by auto. rewrite (Hd t0) by assumption.
           rewrite Htab1, !lookup_with_report_eq. auto.
      * intros t Ht Hnp.
        assert (Hne : t <> t0) by (intros ->; contradiction).
        apply elem_of_cons in Ht as [->|Ht]; [contradiction|].
        rewrite (Hb t Ht Hnp). now apply Hother.
      * intros t Ht.
        assert (Hne : t <> t0).
        { intros ->. destruct Ht as [Ht|Ht]; [|contradiction].
          apply Ht, list_elem_of_here. }
        rewrite Hc, Hother; [reflexivity | assumption |].
        destruct Ht as [Ht|Ht]; [left | now right].
        intros Hr. apply Ht. now apply list_elem_of_further.
      * intros t Ht. apply not_elem_of_cons in Ht as [Hne Ht].
        rewrite Hd by assumption. now apply lookup_with_report_ne.
    + destruct (Hknown t0 (list_elem_of_here _ _) Hnot) as [entry Hentry].
      rewrite (batch_result_step_cached pend r t0 results s entry Hnot Hentry).
      destruct (IH (<[t0 := entry]> results) s)
        as (results' & s' & Hloop & Hreq & Hkept & Ha & Hb & Hc & Hd).
      { intros t Ht Hnp. apply Hknown; [now apply list_elem_of_further | assumption]. }
      exists results', s'. split; [exact Hloop|]. split; [exact Hreq|].
      split; [exact Hkept|].
      split; [|split; [|split]].
      * intros t Ht Hp.
        assert (Hne : t <> t0) by (intros ->; contradiction).
        apply elem_of_cons in Ht as [->|Ht]; [contradiction|].
        destruct (Ha t Ht Hp) as [Hta Hra]. split; [exact Hta|].
        rewrite Hra. now rewrite lookup_insert_ne by congruence.
      * intros t Ht Hnp. destruct (decide (t ∈ rest)) as [Hr|Hr]; [now apply Hb|].
        apply elem_of_cons in Ht as [->|Ht]; [|contradiction].
        rewrite Hd by assumption. now rewrite lookup_insert_eq.
      * intros t Ht. apply Hc. destruct Ht as [Ht|Ht]; [left | now right].
        intros Hr. apply Ht. now apply list_elem_of_further.
      * intros t Ht. apply not_elem_of_cons in Ht as [Hne Ht].
        rewrite Hd by assumption. now rewrite lookup_insert_ne by congruence.
Qed.

(** The response that the loop of [get_batch_result] reads: that of the
    batch-status request, or nothing when no id had to be sent. *)
Definition batch_response (task_id_list : list string) (s : state) : outcome value :=
  match still_pending s task_id_list with
  | [] => inr VNone
  | (_ :: _) as sent => on_get_batch_status (svc (env s)) (requests (env s)) sent
  end.

Lemma get_batch_result_spec task_id_list s :
  let sent := still_pending s task_id_list in
  match batch_response task_id_list s with
  | inl e =>
      get_batch_result task_id_list s =
      (inl e, {| self := self s; env := record_request (GetBatchStatus sent) (env s) |})
  | inr r =>
      exists results s',
        get_batch_result task_id_list s = (inr results, s') /\
        requests (env s') = (requests (env s) ++ batch_status_requests sent)%list /\
        kept s s' /\
        (forall t, t ∈ sent ->
           results !! t = report r t s /\
           table_of s' !! t = answer_or (report r t s) (table_of s !! t)) /\
        (forall t, t ∈ task_id_list -> t ∉ sent -> results !! t = table_of s !! t) /\
        (forall t, t ∉ task_id_list -> results !! t = None) /\
        (forall t, t ∉ sent -> table_of s' !! t = table_of s !! t)
  end.
Proof.
  cbv zeta. unfold batch_response, get_batch_result, bind, gets.
  change (filter _ task_id_list) with (still_pending s task_id_list).
  pose proof (not_still_pending_known s task_id_list) as Hknown.
  assert (Hsub : forall t, t ∈ still_pending s task_id_list -> t ∈ task_id_list).
  { intros t Ht. now apply list_elem_of_filter in Ht as [_ Ht]. }
  destruct (still_pending s task_id_list) as [|t0 sent'].
  - unfold ret.
    destruct (batch_result_loop_spec [] VNone task_id_list ∅ s Hknown)
      as (results' & s' & Hloop & Hreq & Hkept & Ha & Hb & Hc & Hd).
    exists results', s'. split; [exact Hloop|].
    split; [rewrite Hreq; simpl; now rewrite app_nil_r|].
    split; [exact Hkept|].
    split; [intros t Ht; inversion Ht|]. split; [exact Hb|].
    split; [intros t Ht; now rewrite Hd|].
    intros t Ht. apply Hc. now right.
  - unfold on_world, call. simpl.
    destruct (on_get_batch_status (svc (env s)) (requests (env s)) (t0 :: sent'))
      as [e|r]; [reflexivity|].
    unfold emit, modify, ret. simpl.
    match goal with
    | |- context [batch_result_loop _ _ _ _ ?s1] =>
        destruct (batch_result_loop_spec (t0 :: sent') r task_id_list ∅ s1 Hknown)
          as (results' & s' & Hloop & Hreq & Hkept & Ha & Hb & Hc & Hd);
        pose proof (kept_trans s _ s'
                      (kept_trans s _ s1 (kept_request (GetBatchStatus (t0 :: sent')) s)
                         (kept_log (Log "DEBUG" "Response string : {r}")
                            (Build_state (self s) _)))
                      Hkept) as Hkept'
    end.
    exists results', s'. split; [exact Hloop|]. split; [exact Hreq|].
    split; [exact Hkept'|].
    split; [|split; [exact Hb|split]].
    + intros t Ht. destruct (Ha t (Hsub t Ht) Ht) as [Hta Hra].
      rewrite Hta, Hra. rewrite (report_same r t _ s), lookup_empty.
      split; [now destruct (report r t s) | reflexivity].
    + intros t Ht. now rewrite Hd.
    + intros t Ht. apply Hc. now right.
Qed.

(** X4. What [get_batch_result] does with the response [r] of its
    batch-status request (no request at all when no id of the list is
    still pending). It does not raise, whatever [r] holds. For an id
    that was sent, the result and the table get the status read from
    [r["results"][id]]; where that entry is missing, cannot be read or
    reports a failed task, the id is left out of the result and its
    table entry stays as it was. An id that was not sent is answered
    from the table, and the result has no other keys than the ids
    asked for. *)
Theorem get_batch_result_reports task_id_list s r :
  batch_response task_id_list s = inr r ->
  let sent := still_pending s task_id_list in
  exists results s',
    get_batch_result task_id_list s = (inr results, s') /\
    requests (env s') = (requests (env s) ++ batch_status_requests sent)%list /\
    (forall t, t ∈ sent ->
       results !! t = report r t s /\
       table_of s' !! t = answer_or (report r t s) (table_of s !! t)) /\
    (forall t, t ∈ task_id_list -> t ∉ sent -> results !! t = table_of s !! t) /\
    (forall t, t ∉ task_id_list -> results !! t = None) /\
    (forall t, t ∉ sent -> table_of s' !! t = table_of s !! t).
Proof.
  intros Hr. pose proof (get_batch_result_spec task_id_list s) as Hspec.
  cbv zeta in Hspec. rewrite Hr in Hspec.
  destruct Hspec as (results & s' & Hget & Hreq & _ & Hrest).
  now exists results, s'.
Qed.

Lemma get_batch_result_kept task_id_list s :
  kept s (get_batch_result task_id_list s).2.
Proof.
  pose proof (get_batch_result_spec task_id_list s) as Hspec. cbv zeta in Hspec.
  destruct (batch_response task_id_list s) as [e|r].
  - rewrite Hspec. apply kept_request.
  - destruct Hspec as (results & s' & -> & _ & Hkept & _). exact Hkept.
Qed.

(** ** [batch_run] *)

(** The loop over the entries of the response has no effect on the
    client. *)
Lemma collect_task_uuids_state results :
  forall task_uuids s, (collect_task_uuids results task_uuids s).2 = s.
Proof.
  induction results as [|result rest IH]; intros task_uuids s; simpl;
    [reflexivity|].
  unfold bind, lift, ret.
  destruct (getitem result "task_uuid"); [reflexivity|].
  destruct (getitem result "http_status_code"); [reflexivity|].
  destruct (ne_int _ 200); [|apply IH].
  destruct (handle_response_errors result) as [e|[]]; [reflexivity | apply IH].
Qed.

(** The id of an entry of the response. *)
Definition task_uuid_of (result : value) : value :=
  match getitem result "task_uuid" with
  | inr task_id => task_id
  | inl _ => VNone
  end.

Lemma collect_task_uuids_accepted results :
  Forall accepted results ->
  forall task_uuids s,
    collect_task_uuids results task_uuids s =
    (inr (task_uuids ++ (task_uuid_of <$> results))%list, s).
Proof.
  induction 1 as [|result rest ((task_id & Hid) & Hcode) _ IH];
    intros task_uuids s; simpl.
  - now rewrite app_nil_r.
  - unfold bind, lift, task_uuid_of. rewrite Hid, Hcode. simpl.
    rewrite IH. now rewrite <- app_assoc.
Qed.

(** What [add_task] and [put_task_group_id] have made of the polling
    task once [batch_run] is through. *)
Definition polling_after (task_uuids : list value) (group_id : option value)
    (p : polling_task) : polling_task :=
  {| added_tasks := added_tasks p ++ task_uuids;
     task_group_ids := task_group_ids p ++
                       match group_id with Some g => [g] | None => [] end |}.

(** A state that differs from [s] in the polling task at most. *)
Definition polling_set (s s' : state) (f : polling_task -> polling_task) : Prop :=
  env s' = env s /\ table_of s' = table_of s /\ same_settings s s' /\
  ws_polling_task (self s') = f <$> ws_polling_task (self s).

Lemma for_each_add_task task_uuids :
  forall s, exists s',
    for_each task_uuids (fun task_id => modify (set_polling (add_task task_id))) s =
      (inr tt, s') /\
    polling_set s s' (polling_after task_uuids None).
Proof.
  induction task_uuids as [|task_id rest IH]; intros s; simpl.
  - exists s. split; [reflexivity|]. unfold polling_set.
    split; [reflexivity|]. split; [reflexivity|].
    split; [apply same_settings_refl|].
    destruct (ws_polling_task (self s)) as [[added groups]|]; simpl;
      [|reflexivity].
    unfold polling_after. simpl. now rewrite !app_nil_r.
  - unfold bind, modify.
    destruct (IH (set_polling (add_task task_id) s))
      as (s' & Hrun & Henv & Htab & Hset & Hpoll).
    exists s'. split; [exact Hrun|]. unfold polling_set.
    split; [exact Henv|]. split; [exact Htab|]. split.
    + eapply same_settings_trans; [|exact Hset].
      unfold same_settings. simpl.
      repeat split; auto; now rewrite fmap_is_Some.
    + rewrite Hpoll. simpl.
      destruct (ws_polling_task (self s)) as [[added groups]|]; simpl;
        [|reflexivity].
      unfold polling_after. simpl. now rewrite <- app_assoc.
Qed.

Lemma polling_set_kept s s' f : polling_set s s' f -> kept s s'.
Proof.
  intros (Henv & Htab & Hset & _).
  split; [unfold same_service; now rewrite Henv|]. split; [exact Hset|].
  split; [exists []; now rewrite Henv, app_nil_r|].
  unfold table_ok. now rewrite Htab.
Qed.

(** The state in which [batch_run] reads the response. *)
Definition submitted_to (batch : Batch) (s : state) : state :=
  {| self := self s; env := record_request (Submit (prepare batch)) (env s) |}.

Lemma batch_run_spec batch s :
  match tasks batch with
  | [] => batch_run batch s = (inl (AssertionError "Requires a non-empty batch"), s)
  | _ :: _ =>
      exists f, polling_set (submitted_to batch s) (batch_run batch s).2 f /\
                (asynchronous (self s) = false ->
                 (batch_run batch s).2 = submitted_to batch s)
  end.
Proof.
  unfold batch_run, bind, assert_.
  destruct (tasks batch) as [|t ts]; [reflexivity|]. simpl.
  unfold on_world, call, lift, gets. simpl. fold (submitted_to batch s).
  assert (Hsame : forall s0, polling_set s0 s0 id).
  { intros s0. split; [reflexivity|]. split; [reflexivity|].
    split; [apply same_settings_refl|]. now rewrite option_fmap_id. }
  destruct (on_submit _ _ _) as [e|r]; [exists id; auto|].
  destruct (getitem r "results") as [e|results]; [exists id; auto|].
  destruct (iterate results) as [e|items]; [exists id; auto|].
  pose proof (collect_task_uuids_state items [] (submitted_to batch s)) as Hstate.
  destruct (collect_task_uuids items [] (submitted_to batch s)) as [[e|ids] s1].
  { simpl in Hstate. subst s1. exists id. auto. }
  simpl in Hstate. subst s1. simpl.
  destruct (asynchronous (self s)) eqn:Hasync; [|exists id; auto].
  destruct (getitem r "task_group_id") as [e|g]; [exists id; split; [auto|discriminate]|].
  destruct (for_each_add_task ids (submitted_to batch s))
    as (s2 & Hrun & Henv & Htab & Hset & Hpoll).
  rewrite Hrun. unfold modify, ret. simpl.
  exists (polling_after ids (Some g)). split; [|discriminate].
  split; [exact Henv|]. split; [exact Htab|]. split.
  - eapply same_settings_trans; [exact Hset|].
    unfold same_settings. simpl. repeat split; auto; now rewrite fmap_is_Some.
  - simpl. rewrite Hpoll. unfold submitted_to. simpl.
    destruct (ws_polling_task (self s)) as [[added groups]|]; simpl;
      [|reflexivity].
    unfold polling_after. simpl. now rewrite !app_nil_r.
Qed.

Lemma batch_run_kept batch s : kept s (batch_run batch s).2.
Proof.
  pose proof (batch_run_spec batch s) as Hspec.
  destruct (tasks batch) as [|t ts].
  - rewrite Hspec. apply kept_refl.
  - destruct Hspec as (f & Hset & _).
    eapply kept_trans; [apply (kept_request (Submit (prepare batch)))|].
    exact (polling_set_kept _ _ f Hset).
Qed.

(** X5. What a submission costs, whatever comes of it. An empty batch
    is refused with [AssertionError] before anything is sent; any other
    batch costs exactly one [submit] request, carrying
    [batch.prepare()], whether [batch_run] returns or raises. The task
    table is never touched, and a synchronous client is left as it was
    but for the request. *)
Theorem batch_run_footprint batch s :
  (tasks batch = [] ->
     batch_run batch s = (inl (AssertionError "Requires a non-empty batch"), s)) /\
  (tasks batch <> [] ->
     requests (env (batch_run batch s).2) =
       (requests (env s) ++ [Submit (prepare batch)])%list /\
     table_of (batch_run batch s).2 = table_of s /\
     (asynchronous (self s) = false ->
        self (batch_run batch s).2 = self s)).
Proof.
  pose proof (batch_run_spec batch s) as Hspec.
  destruct (tasks batch) as [|t ts]; (split; [intros Ht|intros Ht]);
    try discriminate; try contradiction; [exact Hspec|].
  destruct Hspec as (f & (Henv & Htab & _) & Hsync).
  split; [now rewrite Henv|]. split; [now rewrite Htab|].
  intros Hasync. now rewrite (Hsync Hasync).
Qed.

Lemma batch_run_accepted batch s r items :
  tasks batch <> [] ->
  on_submit (svc (env s)) (requests (env s)) (prepare batch) = inr r ->
  getitem r "results" = inr (VList items) ->
  Forall accepted items ->
  let task_uuids := task_uuid_of <$> items in
  if asynchronous (self s) then
    match getitem r "task_group_id" with
    | inr group_id =>
        exists s',
          batch_run batch s = (inr (AsyncTasks task_uuids), s') /\
          polling_set (submitted_to batch s) s'
            (polling_after task_uuids (Some group_id))
    | inl e => batch_run batch s = (inl e, submitted_to batch s)
    end
  else batch_run batch s = (inr (TaskIds task_uuids), submitted_to batch s).
Proof.
  intros Hne Hanswer Hresults Hitems. cbv zeta.
  unfold batch_run, bind, assert_.
  destruct (tasks batch) as [|t ts]; [contradiction|]. simpl.
  unfold on_world, call, lift, gets. simpl. fold (submitted_to batch s).
  rewrite Hanswer, Hresults. simpl.
  rewrite (collect_task_uuids_accepted items Hitems). simpl.
  destruct (asynchronous (self s)); [|reflexivity].
  destruct (getitem r "task_group_id") as [e|g]; [reflexivity|].
  destruct (for_each_add_task (task_uuid_of <$> items) (submitted_to batch s))
    as (s2 & Hrun & Henv & Htab & Hset & Hpoll).
  rewrite Hrun. unfold modify, ret. simpl.
  eexists. split; [reflexivity|].
  split; [exact Henv|]. split; [exact Htab|]. split.
  - eapply same_settings_trans; [exact Hset|].
    unfold same_settings. simpl. repeat split; auto; now rewrite fmap_is_Some.
  - simpl. rewrite Hpoll. unfold submitted_to. simpl.
    destruct (ws_polling_task (self s)) as [[added groups]|]; simpl;
      [|reflexivity].
    unfold polling_after. simpl. now rewrite !app_nil_r.
Qed.


(** ** [version_check] and [register_endpoint] *)

(** The state after the [GET /version] of [version_check]. *)
Definition version_asked (s : state) : state :=
  {| self := self s; env := record_request GetVersion (env s) |}.

Lemma version_check_state endpoint_version s :
  (version_check endpoint_version s).2 = version_asked s.
Proof.
  unfold version_check, bind, on_world, call, lift, ret. simpl.
  repeat case_scrutinee; reflexivity.
Qed.

Lemma version_check_kept endpoint_version s :
  kept s (version_check endpoint_version s).2.
Proof. rewrite version_check_state. apply kept_request. Qed.

(** What the check comes to when no endpoint version is given: both
    keys are read, the second is compared. *)
Definition sdk_check (data : value) : outcome unit :=
  match getitem data "min_ep_version" with
  | inl e => inl e
  | inr _ =>
      match getitem data "min_sdk_version" with
      | inl e => inl e
      | inr min_sdk_version => compare_versions __version__ min_sdk_version "funcx"
      end
  end.

Lemma version_check_none s :
  version_check None s =
  (match on_get_version (svc (env s)) (requests (env s)) with
   | inl e => inl e
   | inr data => sdk_check data
   end, version_asked s).
Proof.
  unfold version_check, sdk_check, bind, on_world, call, lift, ret. simpl.
  repeat case_scrutinee; try reflexivity.
  now destruct u.
Qed.

Lemma register_endpoint_kept name endpoint_id metadata endpoint_version s :
  kept s (register_endpoint name endpoint_id metadata endpoint_version s).2.
Proof.
  unfold register_endpoint, bind.
  pose proof (version_check_kept None s) as Hkept.
  destruct (version_check None s) as [[e|[]] s1]; [exact Hkept|].
  eapply kept_trans; [exact Hkept|].
  unfold on_world, call. simpl. apply kept_request.
Qed.

(** X7. [register_endpoint] does not compare the endpoint's version.
    When the service's [/version] answer has both minimum versions and
    the SDK's own version passes, the registration is sent with the
    [endpoint_version] it was given and the service's answer is handed
    back, whatever [compare_versions] would say of that version against
    [min_ep_version]; when the check raises, the error is the caller's
    and no registration is sent. *)
Theorem register_endpoint_forwards_endpoint_version
    name endpoint_id metadata endpoint_version s data :
  on_get_version (svc (env s)) (requests (env s)) = inr data ->
  match sdk_check data with
  | inr _ =>
      register_endpoint name endpoint_id metadata endpoint_version s =
      (on_register_endpoint (svc (env s)) (requests (env s) ++ [GetVersion])%list
         name endpoint_id metadata endpoint_version,
       {| self := self s;
          env := record_request
                   (RegisterEndpoint name endpoint_id metadata endpoint_version)
                   (record_request GetVersion (env s)) |})
  | inl e =>
      register_endpoint name endpoint_id metadata endpoint_version s =
      (inl e, version_asked s)
  end.
Proof.
  intros Hdata. unfold register_endpoint, bind.
  rewrite version_check_none, Hdata.
  now destruct (sdk_check data) as [e|[]].
Qed.

(** ** [create_batch] *)

Lemma create_batch_state group s : (create_batch group s).2 = s.
Proof. reflexivity. Qed.

(** ** [__init__] *)

(** The object that [__init__] builds, from its arguments, the session's
    task group id and the event loop. *)
Definition built (a : init_args) (group_id : string) (the_loop : option nat)
  : FuncXClient :=
  {| _task_status_table := ∅;
     funcx_home := expanduser (arg_funcx_home a);
     session_task_group_id := group_id;
     funcx_service_address :=
       default (get_web_service_url (arg_environment a))
               (arg_funcx_service_address a);
     results_ws_uri :=
       default (get_web_socket_url (arg_environment a)) (arg_results_ws_uri a);
     asynchronous := arg_asynchronous a;
     loop := the_loop;
     ws_polling_task :=
       match the_loop with
       | Some _ => Some {| added_tasks := []; task_group_ids := [VStr group_id] |}
       | None => None
       end |}.

(** The deprecated arguments that were given, in the order in which
    [__init__] warns about them. *)
Definition given_authorizers (a : init_args) : list string :=
  ((if arg_openid_authorizer a then ["openid_authorizer"] else []) ++
   (if arg_fx_authorizer a then ["fx_authorizer"] else []) ++
   (if arg_search_authorizer a then ["search_authorizer"] else []))%list.

(** The part of [__init__] from the login on. *)
Definition init_rest (a : init_args) (group_id : string) : M world FuncXClient :=
  (if arg_login_manager a then ret tt else fun w => (login_flow w, w)) ;;;
  (if arg_do_version_check a
   then on_object (built a group_id None) (version_check None)
   else ret (tt, built a group_id None)) ;;;
  if arg_asynchronous a then
    the_loop <- (match arg_loop a with
                 | Some given => ret given
                 | None => get_event_loop
                 end) ;;
    ret (built a group_id (Some the_loop))
  else ret (built a group_id None).

(** One deprecation warning: it passes, or the filter makes an error of
    it. *)
Lemma deprecation_outcome given name w :
  (exists w1, deprecation given name w = (inr tt, w1) /\ same_but_log w w1 /\
              (given = true -> warning_filter w (deprecation_message name) = false)) \/
  (given = true /\ warning_filter w (deprecation_message name) = true /\
   deprecation given name w = (inl (DeprecationWarning (deprecation_message name)), w)).
Proof.
  unfold deprecation, warn. destruct given.
  - destruct (warning_filter w _) eqn:Hf; [right; auto|].
    left. eexists. split; [reflexivity|]. split; [repeat split | auto].
  - left. exists w. split; [reflexivity|].
    split; [apply same_but_log_refl | discriminate].
Qed.

Lemma elem_of_given (given : bool) (n name : string) :
  name ∈ (if given then [n] else []) -> given = true /\ name = n.
Proof.
  destruct given; intros Hin.
  - apply list_elem_of_singleton in Hin. auto.
  - inversion Hin.
Qed.

(** The three of them: they pass and send nothing, or the first one that
    the filter makes an error of is raised. *)
Lemma init_deprecations {A} a (k : M world A) w1 :
  (exists w4,
     same_but_log w1 w4 /\
     (forall name, name ∈ given_authorizers a ->
        warning_filter w1 (deprecation_message name) = false) /\
     (deprecation (arg_openid_authorizer a) "openid_authorizer" ;;;
      deprecation (arg_fx_authorizer a) "fx_authorizer" ;;;
      deprecation (arg_search_authorizer a) "search_authorizer" ;;;
      k) w1 = k w4) \/
  (exists name w4,
     name ∈ given_authorizers a /\
     warning_filter w1 (deprecation_message name) = true /\
     same_but_log w1 w4 /\
     (deprecation (arg_openid_authorizer a) "openid_authorizer" ;;;
      deprecation (arg_fx_authorizer a) "fx_authorizer" ;;;
      deprecation (arg_search_authorizer a) "search_authorizer" ;;;
      k) w1 = (inl (DeprecationWarning (deprecation_message name)), w4)).
Proof.
  unfold given_authorizers.
  destruct (deprecation_outcome (arg_openid_authorizer a) "openid_authorizer" w1)
    as [(w2 & Hd1 & Hq2 & Hp1) | (Hg & Hf & Hd1)].
  2:{ right. exists "openid_authorizer", w1. rewrite Hg at 1.
      split; [apply list_elem_of_here|].
      split; [exact Hf|]. split; [apply same_but_log_refl|].
      unfold bind at 1. now rewrite Hd1. }
  assert (Hf2 : warning_filter w2 = warning_filter w1) by apply Hq2.
  destruct (deprecation_outcome (arg_fx_authorizer a) "fx_authorizer" w2)
    as [(w3 & Hd2 & Hq3 & Hp2) | (Hg & Hf & Hd2)].
  2:{ right. exists "fx_authorizer", w2. rewrite Hg at 1.
      split; [apply elem_of_app; right; apply list_elem_of_here|].
      split; [now rewrite <- Hf2|]. split; [exact Hq2|].
      unfold bind at 1. rewrite Hd1. cbv beta iota.
      unfold bind at 1. now rewrite Hd2. }
  assert (Hf3 : warning_filter w3 = warning_filter w1).
  { destruct Hq3 as (_ & _ & _ & _ & _ & Hf3 & _). congruence. }
  destruct (deprecation_outcome (arg_search_authorizer a) "search_authorizer" w3)
    as [(w4 & Hd3 & Hq4 & Hp3) | (Hg & Hf & Hd3)].
  2:{ right. exists "search_authorizer", w3. rewrite Hg at 1.
      split; [apply elem_of_app; right; apply elem_of_app; right;
              apply list_elem_of_here|].
      split; [now rewrite <- Hf3|].
      split; [eapply same_but_log_trans; eassumption|].
      unfold bind at 1. rewrite Hd1. cbv beta iota.
      unfold bind at 1. rewrite Hd2. cbv beta iota.
      unfold bind at 1. now rewrite Hd3. }
  left. exists w4.
  split; [eapply same_but_log_trans; [exact Hq2|];
          eapply same_but_log_trans; eassumption|].
  split.
  - intros name Hname.
    apply elem_of_app in Hname as [Hname|Hname];
      [|apply elem_of_app in Hname as [Hname|Hname]];
      apply elem_of_given in Hname as [Hg ->].
    + now apply Hp1.
    + rewrite <- Hf2. now apply Hp2.
    + rewrite <- Hf3. now apply Hp3.
  - unfold bind at 1. rewrite Hd1. cbv beta iota.
    unfold bind at 1. rewrite Hd2. cbv beta iota.
    unfold bind at 1. now rewrite Hd3.
Qed.

(** The part of [__init__] before the deprecation warnings: the warning
    about the URLs and the task group id. It cannot raise, and it sends
    nothing. *)
Lemma init_prologue a w :
  exists group_id w1,
    group_id = (if truthy (arg_task_group_id a) then str (arg_task_group_id a)
                else fresh_group_id w) /\
    (svc w1 = svc w /\ requests w1 = requests w /\ login_flow w1 = login_flow w /\
     warning_filter w1 = warning_filter w /\ event_loop w1 = event_loop w) /\
    __init__ a w =
    (deprecation (arg_openid_authorizer a) "openid_authorizer" ;;;
     deprecation (arg_fx_authorizer a) "fx_authorizer" ;;;
     deprecation (arg_search_authorizer a) "search_authorizer" ;;;
     init_rest a group_id) w1.
Proof.
  unfold __init__. unfold bind at 1.
  match goal with
  | |- context [(if ?b then emit ?level ?message else ret tt) w] =>
      assert (Hwarn : exists w0, (if b then emit level message else ret tt) w =
                                 (inr tt, w0) /\ same_but_log w w0)
  end.
  { destruct (_ && _); [apply emit_quiet|].
    exists w. split; [reflexivity | apply same_but_log_refl]. }
  destruct Hwarn as (w0 & -> & (Hs0 & Hr0 & Hu0 & Hd0 & Hl0 & Hf0 & He0)).
  unfold bind at 1. rewrite session_task_group_id_of_spec.
  destruct (truthy (arg_task_group_id a)).
  - exists (str (arg_task_group_id a)), w0.
    split; [reflexivity|]. split; [auto|]. reflexivity.
  - exists (fresh_group_id w), (next_draw w0).
    split; [reflexivity|]. split; [simpl; auto|].
    replace (fresh_group_id w) with (fresh_group_id w0)
      by (unfold fresh_group_id; now rewrite Hu0, Hd0).
    reflexivity.
Qed.

(** What the check comes to for [__init__]. *)
Definition init_check (a : init_args) (w : world) : outcome unit :=
  if arg_do_version_check a then
    match on_get_version (svc w) (requests w) with
    | inl e => inl e
    | inr data => sdk_check data
    end
  else inr tt.

Definition init_checked (a : init_args) (w : world) : world :=
  if arg_do_version_check a then record_request GetVersion w else w.

(** The part from the login on, spelled out. *)
Lemma init_rest_spec a group_id w :
  init_rest a group_id w =
  match (if arg_login_manager a then inr tt else login_flow w) with
  | inl e => (inl e, w)
  | inr _ =>
      match init_check a w with
      | inl e => (inl e, init_checked a w)
      | inr _ =>
          if arg_asynchronous a then
            match arg_loop a with
            | Some given => (inr (built a group_id (Some given)), init_checked a w)
            | None =>
                match event_loop w with
                | inl e => (inl e, init_checked a w)
                | inr l => (inr (built a group_id (Some l)), init_checked a w)
                end
            end
          else (inr (built a group_id None), init_checked a w)
      end
  end.
Proof.
  unfold init_rest, init_check, init_checked. unfold bind at 1.
  assert (Hlogin : (if arg_login_manager a then ret tt
                    else fun w0 : world => (login_flow w0, w0)) w =
                   (if arg_login_manager a then inr tt else login_flow w, w)).
  { now destruct (arg_login_manager a). }
  rewrite Hlogin. clear Hlogin.
  destruct (if arg_login_manager a then inr tt else login_flow w) as [e|[]];
    [reflexivity|].
  unfold bind at 1.
  destruct (arg_do_version_check a).
  - unfold on_object. rewrite version_check_none. simpl.
    destruct (on_get_version (svc w) (requests w)) as [e|data]; [reflexivity|].
    destruct (sdk_check data) as [e|[]]; [reflexivity|].
    destruct (arg_asynchronous a); [|reflexivity].
    unfold bind, get_event_loop, ret.
    destruct (arg_loop a); [reflexivity|]. simpl.
    now destruct (event_loop w).
  - unfold ret at 1.
    destruct (arg_asynchronous a); [|reflexivity].
    unfold bind, get_event_loop, ret.
    destruct (arg_loop a); [reflexivity|].
    now destruct (event_loop w).
Qed.



(** What [__init__] returns is the object built from its arguments. *)
Lemma init_returns_built a w c w' :
  __init__ a w = (inr c, w') ->
  c = built a (session_task_group_id c) (loop c) /\
  (is_Some (loop c) <-> arg_asynchronous a = true).
Proof.
  destruct (init_prologue a w) as (group_id & w1 & _ & _ & ->).
  destruct (init_deprecations a (init_rest a group_id) w1)
    as [(w4 & _ & _ & ->) | (name & w4 & _ & _ & _ & ->)]; [|discriminate].
  rewrite init_rest_spec.
  destruct (if arg_login_manager a then inr tt else login_flow w4) as [|[]];
    [discriminate|].
  destruct (init_check a w4) as [|[]]; [discriminate|].
  destruct (arg_asynchronous a).
  - destruct (arg_loop a) as [given|].
    + intros [= <- _]. simpl. split; [reflexivity|]. split; eauto.
    + destruct (event_loop w4); [discriminate|].
      intros [= <- _]. simpl. split; [reflexivity|]. split; eauto.
  - intros [= <- _]. simpl. split; [reflexivity|].
    split; [intros [? Hl]|]; discriminate.
Qed.

(** ** A client at work *)

(** The calls a program makes on a client. *)
Inductive operation : Type :=
| Call_version_check (endpoint_version : option string)
| Call_update_task_table (return_msg : value) (task_id : string)
| Call_get_task (task_id : string)
| Call_get_result (task_id : string)
| Call_get_batch_result (task_id_list : list string)
| Call_create_batch (task_group_id : option string)
| Call_batch_run (batch : Batch)
| Call_register_endpoint (name endpoint_id : string) (metadata : value)
    (endpoint_version : option string).

(** The state a call leaves, whether it returned or raised. *)
Definition perform (o : operation) (s : state) : state :=
  match o with
  | Call_version_check v => (version_check v s).2
  | Call_update_task_table return_msg task_id =>
      (_update_task_table return_msg task_id s).2
  | Call_get_task task_id => (get_task task_id s).2
  | Call_get_result task_id => (get_result task_id s).2
  | Call_get_batch_result task_id_list => (get_batch_result task_id_list s).2
  | Call_create_batch group => (create_batch group s).2
  | Call_batch_run batch => (batch_run batch s).2
  | Call_register_endpoint name endpoint_id metadata v =>
      (register_endpoint name endpoint_id metadata v s).2
  end.

Definition perform_all (ops : list operation) (s : state) : state :=
  fold_left (fun s o => perform o s) ops s.

Lemma perform_kept o s : kept s (perform o s).
Proof.
  destruct o; simpl.
  - apply version_check_kept.
  - apply update_task_table_kept.
  - apply get_task_kept.
  - rewrite get_result_state. apply get_task_kept.
  - apply get_batch_result_kept.
  - apply kept_refl.
  - apply batch_run_kept.
  - apply register_endpoint_kept.
Qed.

Lemma perform_all_kept ops : forall s, kept s (perform_all ops s).
Proof.
  induction ops as [|o ops IH]; intros s; simpl; [apply kept_refl|].
  eapply kept_trans; [apply perform_kept | apply IH].
Qed.

(** The client [__init__] returned, in the world it left. *)
Definition fresh (c : FuncXClient) (w : world) : state := {| self := c; env := w |}.

Lemma fresh_table_ok a w c w' : __init__ a w = (inr c, w') -> table_ok (fresh c w').
Proof.
  intros Hinit. apply init_returns in Hinit as (_ & Htable & _).
  intros t e. simpl. rewrite Htable, lookup_empty. discriminate.
Qed.

(** X9. What holds of a client all its life. After any sequence of
    calls, returning or raising, on a client that [__init__] returned:
    every entry of the task table is well formed (a lower-case status,
    [pending] exactly when the status is neither "success" nor
    "failed", a result exactly when not pending); the session's task
    group id and the asynchronous flag are those of the construction,
    and the polling task exists exactly for an asynchronous client; no
    request is taken back from the log and no random bytes are drawn
    after the construction. *)
Theorem client_invariants a w c w' ops :
  __init__ a w = (inr c, w') ->
  let s := perform_all ops (fresh c w') in
  table_ok s /\
  session_task_group_id (self s) = session_task_group_id c /\
  asynchronous (self s) = arg_asynchronous a /\
  (is_Some (ws_polling_task (self s)) <-> arg_asynchronous a = true) /\
  (exists more, requests (env s) = (requests w' ++ more)%list) /\
  draws (env s) = draws w'.
Proof.
  intros Hinit. cbv zeta.
  destruct (perform_all_kept ops (fresh c w'))
    as ((_ & _ & Hdraws & _) & (_ & Hgroup & _ & _ & Hasync & _ & Hpoll) & Hlog & Hok).
  split; [exact (Hok (fresh_table_ok a w c w' Hinit))|].
  split; [exact Hgroup|].
  apply init_returns_built in Hinit as [Hbuilt Hloop].
  simpl in Hgroup, Hasync, Hpoll.
  split; [rewrite Hasync, Hbuilt; reflexivity|].
  split; [|split; [exact Hlog | exact Hdraws]].
  rewrite Hpoll, <- Hloop, Hbuilt. simpl.
  destruct (loop c); split; intros Hs; eauto; now destruct Hs.
Qed.

(** X10. [get_result] on a client at work. Whatever calls came before,
    it raises what [get_task] raises (among them
    [FuncxTaskExecutionFailed] for a failed task), raises [TaskPending]
    with the status for a task that is not finished, and returns the
    result otherwise: the branch that reads [task["exception"]] from a
    table entry is never reached, since no table entry is finished
    without a result. *)
Theorem get_result_outcomes a w c w' ops task_id :
  __init__ a w = (inr c, w') ->
  let s := perform_all ops (fresh c w') in
  match get_task task_id s with
  | (inl e, s') => get_result task_id s = (inl e, s')
  | (inr st, s') =>
      if pending st
      then get_result task_id s = (inl (TaskPending (status st)), s') /\
           finished (status st) = false
      else exists r completion_t,
             completed st = Some (r, completion_t) /\
             get_result task_id s = (inr r, s') /\
             finished (status st) = true
  end.
Proof.
  intros Hinit. cbv zeta. apply get_result_on_table_ok.
  destruct (perform_all_kept ops (fresh c w')) as (_ & _ & _ & Hok).
  exact (Hok (fresh_table_ok a w c w' Hinit)).
Qed.

End More.

(** ** [run] *)

Section Run.
Context `{Collaborators}.

(** [Batch.add], called with the positional arguments, [endpoint_id],
    [function_id] and the keyword arguments, belongs to
    [funcx.sdk.batch], which this development does not embed: it gives
    the batch with the task added, or raises. *)
Variable add : Batch -> list value -> string -> string -> value -> outcome Batch.

(** [run] raises what the methods it calls raise, and [IndexError] of
    its own for [r[0]] on an empty list. *)
Inductive run_exn : Type :=
| Raised (e : exn)
| IndexError (msg : string).

(** [r[0]] for what [batch_run] returned. *)
Definition first_of (r : submitted) : run_exn + value :=
  match r with
  | TaskIds (first :: _) | AsyncTasks (first :: _) => inr first
  | TaskIds [] | AsyncTasks [] => inl (IndexError "list index out of range")
  end.

Definition run (args : list value) (kwargs : value)
    (endpoint_id function_id : option string)
  : state -> (run_exn + value) * state :=
  fun s =>
    match endpoint_id, function_id with
    | None, _ =>
        (inl (Raised (AssertionError "endpoint_id key-word argument must be set")), s)
    | Some _, None =>
        (inl (Raised (AssertionError "function_id key-word argument must be set")), s)
    | Some endpoint_id, Some function_id =>
        match (batch <- create_batch None ;;
               batch <- lift (add batch args endpoint_id function_id kwargs) ;;
               batch_run batch) s with
        | (inl e, s') => (inl (Raised e), s')
        | (inr r, s') => (first_of r, s')
        end
    end.

(** The batch that [run] starts from: empty, in the session's task
    group. *)
Definition session_batch (s : state) : Batch :=
  {| tasks := []; task_group_id := session_task_group_id (self s) |}.

(** Without both ids, nothing happens. *)
Lemma run_requires_ids args kwargs endpoint_id function_id s :
  endpoint_id = None \/ function_id = None ->
  exists msg,
    run args kwargs endpoint_id function_id s = (inl (Raised (AssertionError msg)), s).
Proof.
  intros [-> | ->]; [|destruct endpoint_id]; eexists; reflexivity.
Qed.

(** X11. One task through [run] on a synchronous client. The task is
    added to an empty batch in the session's task group, that batch is
    the one submitted, in one request, and when the service accepts
    every entry of its response, [run] returns the task id of the first
    entry, however many there are; on a response without entries it
    raises [IndexError] although the batch was submitted. *)
Theorem run_returns_first_task
    args kwargs endpoint_id function_id s batch r items :
  add (session_batch s) args endpoint_id function_id kwargs = inr batch ->
  tasks batch <> [] ->
  on_submit (svc (env s)) (requests (env s)) (prepare batch) = inr r ->
  getitem r "results" = inr (VList items) ->
  Forall accepted items ->
  asynchronous (self s) = false ->
  run args kwargs (Some endpoint_id) (Some function_id) s =
  (match items with
   | first :: _ => inr (task_uuid_of first)
   | [] => inl (IndexError "list index out of range")
   end,
   submitted_to batch s).
Proof.
  intros Hadd Hne Hanswer Hresults Hitems Hsync.
  pose proof (batch_run_accepted batch s r items Hne Hanswer Hresults Hitems) as Hrun.
  cbv zeta in Hrun. rewrite Hsync in Hrun.
  unfold run, create_batch, bind, gets, lift, ret.
  fold (session_batch s). rewrite Hadd, Hrun.
  now destruct items.
Qed.

End Run.

End ClientMore.

(* ===================================================================== *)
(** * [delete_from_whitelist]                                             *)
(* ===================================================================== *)

Module Whitelist.
Import Py Monad.

(** [FuncxWebClient.whitelist_remove(endpoint_id, function_id)], as the
    service sees it. *)
Inductive removal : Type :=
| Whitelist_remove (endpoint_id function_id : value).

(** The service answers a removal from the removals asked so far. *)
Record web : Type := {
  on_whitelist_remove : list removal -> value -> value -> outcome value;
  removals : list removal;          (* oldest first *)
}.

Definition whitelist_remove (endpoint_id function_id : value) : M web value :=
  fun w =>
    (on_whitelist_remove w (removals w) endpoint_id function_id,
     {| on_whitelist_remove := on_whitelist_remove w;
        removals := removals w ++ [Whitelist_remove endpoint_id function_id] |}).

(** The loop over [function_ids]; [res] accumulates the responses. *)
Fixpoint remove_each (endpoint_id : value) (function_ids res : list value)
  : M web (list value) :=
  match function_ids with
  | [] => ret res
  | fid :: rest =>
      r <- whitelist_remove endpoint_id fid ;;
      remove_each endpoint_id rest (res ++ [r])
  end.

Definition delete_from_whitelist (endpoint_id function_ids : value)
  : M web (list value) :=
  let function_ids :=
    match function_ids with
    | VList l => l
    | _ => [function_ids]
    end in
  remove_each endpoint_id function_ids [].

(** The ids the loop goes through: those of a list, or the one value
    that is not a list. *)
Definition ids_of (function_ids : value) : list value :=
  match function_ids with
  | VList l => l
  | _ => [function_ids]
  end.

(** What the service has been asked once [done] is removed. *)
Definition removed (endpoint_id : value) (done : list value) (w : web)
  : list removal :=
  (removals w ++ (Whitelist_remove endpoint_id <$> done))%list.

Lemma remove_each_spec endpoint_id function_ids :
  forall res w,
    match remove_each endpoint_id function_ids res w with
    | (inr res', w') =>
        removals w' = removed endpoint_id function_ids w /\
        exists answers,
          res' = (res ++ answers)%list /\
          length answers = length function_ids /\
          forall i fid, function_ids !! i = Some fid ->
            exists r, answers !! i = Some r /\
              on_whitelist_remove w (removed endpoint_id (take i function_ids) w)
                endpoint_id fid = inr r
    | (inl e, w') =>
        exists done fid rest,
          function_ids = (done ++ fid :: rest)%list /\
          removals w' = removed endpoint_id (done ++ [fid]) w /\
          on_whitelist_remove w (removed endpoint_id done w) endpoint_id fid = inl e
    end.
Proof.
  unfold removed.
  induction function_ids as [|fid rest IH]; intros res w; simpl.
  - split; [now rewrite app_nil_r|]. exists []. rewrite app_nil_r.
    split; [reflexivity|]. split; [reflexivity|]. intros i fid Hi. inversion Hi.
  - unfold bind, whitelist_remove.
    destruct (on_whitelist_remove w (removals w) endpoint_id fid) as [e|r] eqn:Hfirst.
    + exists [], fid, rest. simpl. rewrite app_nil_r. auto.
    + specialize (IH (res ++ [r])%list
        {| on_whitelist_remove := on_whitelist_remove w;
           removals := removals w ++ [Whitelist_remove endpoint_id fid] |}).
      destruct (remove_each _ _ _ _) as [[e|res'] w']; simpl in IH.
      * destruct IH as (done & fid' & rest' & -> & Hsent & Hfail).
        exists (fid :: done), fid', rest'. simpl.
        rewrite <- !app_assoc in Hsent, Hfail. simpl in Hsent, Hfail. auto.
      * destruct IH as (Hsent & answers & -> & Hlen & Hall).
        rewrite <- app_assoc in Hsent. split; [exact Hsent|].
        exists (r :: answers). rewrite <- app_assoc. split; [reflexivity|].
        split; [simpl; now rewrite Hlen|].
        intros [|i] fid' Hi; simpl in *.
        -- injection Hi as <-. exists r. rewrite app_nil_r. auto.
        -- destruct (Hall i fid' Hi) as (r' & Hr' & Hanswer).
           exists r'. split; [exact Hr'|].
           now rewrite <- app_assoc in Hanswer.
Qed.

(** X12. [delete_from_whitelist] removes the functions one by one, in
    the order given; a value that is not a list is taken as the one id
    to remove. When it returns, every id has been sent once and the
    result holds the service's answers in the same order. When a
    removal fails, the error is raised at once: the ids before it have
    been removed and stay so, the ids after it are not sent, and the
    answers collected so far are lost. *)
Theorem delete_from_whitelist_one_by_one endpoint_id function_ids w :
  let ids := ids_of function_ids in
  match delete_from_whitelist endpoint_id function_ids w with
  | (inr res, w') =>
      removals w' = removed endpoint_id ids w /\
      length res = length ids /\
      forall i fid, ids !! i = Some fid ->
        exists r, res !! i = Some r /\
          on_whitelist_remove w (removed endpoint_id (take i ids) w)
            endpoint_id fid = inr r
  | (inl e, w') =>
      exists done fid rest,
        ids = (done ++ fid :: rest)%list /\
        removals w' = removed endpoint_id (done ++ [fid]) w /\
        on_whitelist_remove w (removed endpoint_id done w) endpoint_id fid = inl e
  end.
Proof.
  cbv zeta. unfold delete_from_whitelist. fold (ids_of function_ids).
  pose proof (remove_each_spec endpoint_id (ids_of function_ids) [] w) as Hspec.
  destruct (remove_each _ _ _ _) as [[e|res] w']; [exact Hspec|].
  destruct Hspec as (Hsent & answers & -> & Hlen & Hall). simpl. auto.
Qed.

End Whitelist.

(* ===================================================================== *)
(** * The client at work against a service with finished tasks            *)
(* ===================================================================== *)

Module ClientMoreExamples.
Import Py Monad Client ClientSpec ClientMore.

Definition quoted (s : string) : string := Sample.dq ++ s ++ Sample.dq.

(** The text of a task that failed. *)
Definition failed_text : string :=
  "{" ++ quoted "status" ++ ": " ++ quoted "FAILED" ++ ", " ++
  quoted "exception" ++ ": " ++ quoted "ZeroDivisionError" ++ ", " ++
  quoted "completion_t" ++ ": " ++ quoted "1668000001.5" ++ "}".

Definition failed_dict : gmap string value :=
  {[ "status" := VStr "FAILED";
     "exception" := VStr "ZeroDivisionError";
     "completion_t" := VStr "1668000001.5" ]}.

Definition success_dict : gmap string value :=
  {[ "status" := VStr "success";
     "result" := VStr "4";
     "completion_t" := VStr "1668000002.0" ]}.

Definition lively_json_loads (text : string) : outcome value :=
  if String.eqb text failed_text then inr (VDict failed_dict)
  else Sample.sample_json_loads text.

#[local] Instance lively : Collaborators := {|
  json_loads := lively_json_loads;
  deserialize := Sample.sample_deserialize;
  compare_versions := Sample.sample_compare_versions;
  handle_response_errors := Sample.sample_handle_response_errors;
  __version__ := "1.0.3";
  get_web_service_url := fun _ => "https://api2.funcx.org/v2";
  get_web_socket_url := fun _ => "wss://api2.funcx.org/ws/v2/";
  urls_might_mismatch := fun _ _ => false;
  expanduser := fun p => p;
  prepare := fun b => VDict {[ "task_group_id" := VStr (task_group_id b);
                               "tasks" := VList (tasks b) ]};
|}.

(** The statuses of a batch: ["t2"] succeeded, ["t3"] failed, and the
    service says nothing of any other task. *)
Definition batch_statuses : value :=
  VDict {[ "results" := VDict {[ "t2" := VDict success_dict;
                                 "t3" := VDict failed_dict ]} ]}.

Definition accepted_items : list value :=
  [Sample.entry "t5" 200 None; Sample.entry "t6" 200 None].

Definition accepted_response : value :=
  VDict {[ "task_group_id" := VStr "group"; "results" := VList accepted_items ]}.

(** A service that asks for endpoints of version 2.0.0 at least. *)
Definition lively_service : service := {|
  on_get_version := fun _ => inr (Sample.version_response "2.0.0");
  on_get_task := fun _ task_id =>
    inr (if String.eqb task_id "t3" then failed_text else Sample.waiting_text);
  on_get_batch_status := fun _ _ => inr batch_statuses;
  on_submit := fun _ _ => inr accepted_response;
  on_register_endpoint := fun _ _ _ _ _ =>
    inr (VDict {[ "endpoint_id" := VStr "0000" ]});
|}.

Definition lively_world : world := {|
  svc := lively_service;
  requests := [];
  urandom := fun k => (N.of_nat k * 0x0123456789abcdef0123456789abcdef + 77)%N;
  draws := 0;
  login_flow := inr tt;
  emitted := [];
  warning_filter := fun _ => false;
  event_loop := inr 1;
|}.

(** A client that has seen task ["t1"] finish. *)
Definition lively_state : state :=
  {| self := self Sample.sample_state; env := lively_world |}.

Definition waiting : task_status :=
  {| pending := true; status := "waiting-for-ep"; completed := None |}.

Definition failure : exn :=
  FuncxTaskExecutionFailed (VStr "ZeroDivisionError") (VStr "1668000001.5").

(** A pending task is asked for again. *)
Lemma get_task_twice_witness :
  (pending waiting = false ->
   get_task "t2" (get_task "t2" lively_state).2 =
   (inr waiting, (get_task "t2" lively_state).2)) /\
  (pending waiting = true ->
   requests (env (get_task "t2" (get_task "t2" lively_state).2).2) =
     (requests (env (get_task "t2" lively_state).2) ++ [GetTask "t2"])%list).
Proof.
  apply (get_task_twice "t2" lively_state waiting (get_task "t2" lively_state).2).
  vm_compute. reflexivity.
Defined.

(** Task ["t3"] failed: three calls, three requests, no entry. *)
Lemma failed_task_is_asked_again_witness :
  (get_task "t3" (Nat.iter 3 (fun st => (get_task "t3" st).2) lively_state)).1 =
    inl failure /\
  (get_result "t3" (Nat.iter 3 (fun st => (get_task "t3" st).2) lively_state)).1 =
    inl failure /\
  requests (env (Nat.iter 3 (fun st => (get_task "t3" st).2) lively_state)) =
    (requests (env lively_state) ++ repeat (GetTask "t3") 3)%list /\
  _task_status_table
    (self (Nat.iter 3 (fun st => (get_task "t3" st).2) lively_state)) =
  _task_status_table (self lively_state).
Proof.
  apply (failed_task_is_asked_again "t3" lively_state failed_text
           (VStr "ZeroDivisionError") (VStr "1668000001.5") 3).
  - vm_compute. reflexivity.
  - intros history. reflexivity.
  - exists failed_dict, "FAILED". repeat split; vm_compute; reflexivity.
Defined.

(** A batch of a cached task, a finished one, a failed one and one the
    service does not know. *)
Lemma get_batch_result_reports_witness :
  let sent := still_pending lively_state ["t1"; "t2"; "t3"; "t4"] in
  exists results s',
    get_batch_result ["t1"; "t2"; "t3"; "t4"] lively_state = (inr results, s') /\
    requests (env s') =
      (requests (env lively_state) ++ batch_status_requests sent)%list /\
    (forall t, t ∈ sent ->
       results !! t = report batch_statuses t lively_state /\
       _task_status_table (self s') !! t =
         answer_or (report batch_statuses t lively_state)
           (_task_status_table (self lively_state) !! t)) /\
    (forall t, t ∈ ["t1"; "t2"; "t3"; "t4"] -> t ∉ sent ->
       results !! t = _task_status_table (self lively_state) !! t) /\
    (forall t, t ∉ ["t1"; "t2"; "t3"; "t4"] -> results !! t = None) /\
    (forall t, t ∉ sent ->
       _task_status_table (self s') !! t =
       _task_status_table (self lively_state) !! t).
Proof.
  apply (get_batch_result_reports ["t1"; "t2"; "t3"; "t4"] lively_state
           batch_statuses).
  vm_compute. reflexivity.
Defined.

(** What the service reports for the three ids that were sent. *)
Lemma batch_statuses_reported :
  still_pending lively_state ["t1"; "t2"; "t3"; "t4"] = ["t2"; "t3"; "t4"] /\
  report batch_statuses "t2" lively_state =
    Some {| pending := false; status := "success";
            completed := Some (VStr "4", VStr "1668000002.0") |} /\
  report batch_statuses "t3" lively_state = None /\
  report batch_statuses "t4" lively_state = None.
Proof. repeat split; vm_compute; reflexivity. Qed.

Lemma accepted_items_accepted : Forall accepted accepted_items.
Proof.
  constructor; [split|constructor; [split|constructor]].
  - exists (VStr "t5"). vm_compute. reflexivity.
  - vm_compute. reflexivity.
  - exists (VStr "t6"). vm_compute. reflexivity.
  - vm_compute. reflexivity.
Defined.

(** An empty batch is refused; any other costs one request. *)
Lemma batch_run_footprint_witness :
  batch_run {| tasks := []; task_group_id := "group" |} lively_state =
    (inl (AssertionError "Requires a non-empty batch"), lively_state) /\
  requests (env (batch_run Sample.one_task_batch lively_state).2) =
    (requests (env lively_state) ++ [Submit (prepare Sample.one_task_batch)])%list.
Proof.
  split.
  - apply (batch_run_footprint {| tasks := []; task_group_id := "group" |}
             lively_state).
    reflexivity.
  - apply (batch_run_footprint Sample.one_task_batch lively_state).
    discriminate.
Defined.


(** An endpoint of version 1.0.3 is older than the service's minimum,
    2.0.0, and is registered nevertheless. *)
Lemma register_endpoint_forwards_endpoint_version_witness :
  compare_versions "1.0.3" (VStr "2.0.0") "funcx-endpoint" =
    inl (VersionMismatch "funcx-endpoint" "1.0.3" (VStr "2.0.0")) /\
  register_endpoint "endpoint_foo" "0000" VNone (Some "1.0.3") lively_state =
  (inr (VDict {[ "endpoint_id" := VStr "0000" ]}),
   {| self := self lively_state;
      env := record_request
               (RegisterEndpoint "endpoint_foo" "0000" VNone (Some "1.0.3"))
               (record_request GetVersion (env lively_state)) |}).
Proof.
  split; [vm_compute; reflexivity|].
  exact (register_endpoint_forwards_endpoint_version
           "endpoint_foo" "0000" VNone (Some "1.0.3") lively_state
           (Sample.version_response "2.0.0") eq_refl).
Defined.


(** A session: two tasks asked for, a batch submitted, a batch of
    statuses fetched, an endpoint registered. *)
Definition session : list operation :=
  [ Call_get_task "t2"; Call_get_task "t3"; Call_batch_run Sample.one_task_batch;
    Call_get_batch_result ["t2"; "t3"; "t4"]; Call_get_result "t2";
    Call_register_endpoint "endpoint_foo" "0000" VNone (Some "1.0.3") ].

Definition lively_client : FuncXClient :=
  Sample.constructed (__init__ (Sample.sample_args TG_None false) lively_world).

Definition lively_start : world :=
  (__init__ (Sample.sample_args TG_None false) lively_world).2.

Lemma client_invariants_witness :
  let s := perform_all session (fresh lively_client lively_start) in
  table_ok s /\
  session_task_group_id (self s) = session_task_group_id lively_client /\
  asynchronous (self s) = false /\
  (is_Some (ws_polling_task (self s)) <-> false = true) /\
  (exists more, requests (env s) = (requests lively_start ++ more)%list) /\
  draws (env s) = draws lively_start.
Proof.
  apply (client_invariants (Sample.sample_args TG_None false) lively_world
           lively_client lively_start session).
  vm_compute. reflexivity.
Defined.

(** After the session, the result of ["t2"] is there to be had. *)
Lemma get_result_outcomes_witness :
  let s := perform_all session (fresh lively_client lively_start) in
  match get_task "t2" s with
  | (inl e, s') => get_result "t2" s = (inl e, s')
  | (inr st, s') =>
      if pending st
      then get_result "t2" s = (inl (TaskPending (status st)), s') /\
           finished (status st) = false
      else exists r completion_t,
             completed st = Some (r, completion_t) /\
             get_result "t2" s = (inr r, s') /\
             finished (status st) = true
  end.
Proof.
  apply (get_result_outcomes (Sample.sample_args TG_None false) lively_world
           lively_client lively_start session "t2").
  vm_compute. reflexivity.
Defined.

Lemma get_result_after_session :
  (get_result "t2" (perform_all session (fresh lively_client lively_start))).1 =
  inr (VStr "4").
Proof. vm_compute. reflexivity. Qed.

(** [Batch.add] in this setting: the task is the triple of the function,
    the endpoint and the arguments. *)
Definition sample_add (batch : Batch) (args : list value)
    (endpoint_id function_id : string) (kwargs : value) : outcome Batch :=
  inr {| tasks := tasks batch ++
                  [VDict {[ "function" := VStr function_id;
                            "endpoint" := VStr endpoint_id;
                            "args" := VList args;
                            "kwargs" := kwargs ]}];
         task_group_id := task_group_id batch |}.

Definition one_task : Batch :=
  {| tasks := [VDict {[ "function" := VStr "fn-1";
                        "endpoint" := VStr "ep-1";
                        "args" := VList [VInt 1];
                        "kwargs" := VDict ∅ ]}];
     task_group_id := "group" |}.

(** Of the two ids the service answers with, [run] returns the first. *)
Lemma run_returns_first_task_witness :
  run sample_add [VInt 1] (VDict ∅) (Some "ep-1") (Some "fn-1") lively_state =
  (inr (VStr "t5"), submitted_to one_task lively_state).
Proof.
  apply (run_returns_first_task sample_add [VInt 1] (VDict ∅) "ep-1" "fn-1"
           lively_state one_task accepted_response accepted_items).
  - reflexivity.
  - discriminate.
  - reflexivity.
  - vm_compute. reflexivity.
  - exact accepted_items_accepted.
  - reflexivity.
Defined.

End ClientMoreExamples.
